(** * The expansion engine of Pate's [expand] plugin (udf.py)

    A shallow embedding of [addons/kate/pate/src/plugins/expand/udf.py]:
    the delimiter matcher [matchingParenthesisPosition], the cursor locator
    [wordAndArgumentAtCursorRanges], the expansion registry
    ([loadExpansionsFromFile], [mergeExpansions], [getExpansionsFor]) and the
    invocation pipeline [expandAtCursor].

    Conventions.
    - Characters are [ascii] code points, a line is a [string], a document
      is the list of its lines.  Line and column numbers are [Z], as the
      source lets them run to [-1] while it scans.
    - A Python [dict] is a [gmap]; the code dates from the time when a dict
      had no defined iteration order.
    - Exceptions are explicit results; the editor's side effects (popups,
      buffer edits) are recorded in an event trace next to the buffer.
    - The modules that [imp.load_source] registers and the results that
      [functools.lru_cache] keeps are explicit state, passed through the
      registry. *)

From Stdlib Require Import ZArith List String Ascii Bool Lia.
From stdpp Require Import gmap strings.
Import ListNotations.

Local Open Scope string_scope.
Local Open Scope list_scope.
Local Open Scope Z_scope.

(* ===================================================================== *)
(** * 1. The text buffer (KTextEditor.Document, Cursor, Range) *)
(* ===================================================================== *)

(** KTextEditor.Cursor: a (line, column) pair; both may be negative. *)
Record Cursor : Type := mkCursor { line : Z; column : Z }.

Definition setColumn (c : Cursor) (col : Z) : Cursor :=
  {| line := line c; column := col |}.

Definition setPosition (l col : Z) : Cursor :=
  {| line := l; column := col |}.

Definition cursor_eqb (a b : Cursor) : bool :=
  (line a =? line b) && (column a =? column b).

(** Document order on cursors. *)
Definition cursor_leb (a b : Cursor) : bool :=
  (line a <? line b) || ((line a =? line b) && (column a <=? column b)).

(** KTextEditor.Cursor.isValid *)
Definition cursor_isValid (c : Cursor) : bool :=
  (0 <=? line c) && (0 <=? column c).

(** KTextEditor.Range: the constructor orders its two ends. *)
Record Range : Type := mkRange { range_start : Cursor; range_end : Cursor }.

Definition Range_of (a b : Cursor) : Range :=
  if cursor_leb a b then mkRange a b else mkRange b a.

Definition range_isValid (r : Range) : bool :=
  cursor_isValid (range_start r) && cursor_isValid (range_end r).

Definition Document : Type := list string.

(** The line with number [n], when there is one. *)
Definition plainLine (document : Document) (n : Z) : option string :=
  if n <? 0 then None else nth_error document (Z.to_nat n).

(** document.line(n): the empty string for a line that does not exist. *)
Definition doc_line (document : Document) (n : Z) : string :=
  match plainLine document n with Some s => s | None => "" end.

(** document.lineLength(n): -1 for a line that does not exist. *)
Definition lineLength (document : Document) (n : Z) : Z :=
  match plainLine document n with
  | Some s => Z.of_nat (String.length s)
  | None => -1
  end.

(** document.character(pos): [None] is the "no character" the source
    compares with [None]; an out-of-bounds read does not raise. *)
Definition character (document : Document) (pos : Cursor) : option ascii :=
  match plainLine document (line pos) with
  | Some s => if column pos <? 0 then None
              else String.get (Z.to_nat (column pos)) s
  | None => None
  end.

(* ===================================================================== *)
(** * 2. The delimiter matcher *)
(* ===================================================================== *)

(** The two reasons of a ParseError. *)
Inductive ParseError : Type :=
| EndOfFileReached
| EndOfLineSearchingQuote (q : ascii).

Definition dquote : ascii := "034"%char.
Definition squote : ascii := "'"%char.

(** Membership in the pair of the two quote characters, for a value that
    may be [None]. *)
Definition in_quotes (x : option ascii) : bool :=
  match x with
  | Some c => Ascii.eqb c dquote || Ascii.eqb c squote
  | None => false
  end.

(** [x == c] for a value that may be [None]. *)
Definition is_char (x : option ascii) (c : ascii) : bool :=
  match x with Some d => Ascii.eqb d c | None => false end.

Definition closing_of (opening : ascii) : ascii :=
  if Ascii.eqb opening "(" then ")"%char else "("%char.

Definition delta_of (opening : ascii) : Z :=
  if Ascii.eqb opening "(" then 1 else -1.

(** The variables of the [while] loop. *)
Record ScanState : Type := mkScan {
  position : Cursor;
  level : Z;
  state : option ascii
}.

(** What one turn of the loop ends in. *)
Inductive Step : Type :=
| Continue (s : ScanState)
| Break (p : Cursor)
| Raise (e : ParseError).

(** Lines 103-116: the character under the cursor updates [level] and
    [state]; the boolean tells that the [break] of line 114 is taken. *)
Definition scan_char (opening : ascii) (ch : option ascii) (lv : Z)
    (st : option ascii) : Z * option ascii * bool :=
  if in_quotes st then
    if match ch, st with
       | Some c, Some q => Ascii.eqb c q
       | _, _ => false
       end
    then (lv, None, false)
    else (lv, st, false)
  else if is_char ch opening then (lv + 1, st, false)
  else if is_char ch (closing_of opening) then (lv - 1, st, (lv - 1 =? 0))
  else if in_quotes ch then (lv, ch, false)
  else (lv, st, false).

(** Lines 118-135: step to the next column, wrap to the adjacent line when
    there is no character there, and raise when that fails too. *)
Definition advance (document : Document) (opening : ascii) (pos : Cursor)
    (st : option ascii) : ParseError + Cursor :=
  let delta := delta_of opening in
  let pos1 := setColumn pos (column pos + delta) in
  match character document pos1 with
  | Some _ => inr pos1
  | None =>
      let pos2 := setPosition (line pos1 + delta) 0 in
      let pos3 := if delta =? -1
                  then setColumn pos2 (lineLength document (line pos2) - 1)
                  else pos2 in
      match character document pos3 with
      | None => inl EndOfFileReached
      | Some _ =>
          match st with
          | Some q => if in_quotes st then inl (EndOfLineSearchingQuote q)
                      else inr pos3
          | None => inr pos3
          end
      end
  end.

(** One turn of the loop of lines 101-135. *)
Definition loop_body (document : Document) (opening : ascii) (s : ScanState)
    : Step :=
  let ch := character document (position s) in
  let '(lv, st, matched) := scan_char opening ch (level s) (state s) in
  if matched then
    Break (if Ascii.eqb (closing_of opening) ")"
           then setColumn (position s) (column (position s) + delta_of opening)
           else position s)
  else
    match advance document opening (position s) st with
    | inl e => Raise e
    | inr p => Continue (mkScan p lv st)
    end.

(** The loop, with the number of turns it may take. *)
Fixpoint scan_loop (fuel : nat) (document : Document) (opening : ascii)
    (s : ScanState) : option (ParseError + Cursor) :=
  match fuel with
  | O => None
  | S fuel' =>
      match loop_body document opening s with
      | Continue s' => scan_loop fuel' document opening s'
      | Break p => Some (inr p)
      | Raise e => Some (inl e)
      end
  end.

(** The state after [n] turns, when the loop is still running then. *)
Fixpoint iter_body (n : nat) (document : Document) (opening : ascii)
    (s : ScanState) : Step :=
  match n with
  | O => Continue s
  | S n' =>
      match loop_body document opening s with
      | Continue s' => iter_body n' document opening s'
      | r => r
      end
  end.

(** The number of characters of the document. *)
Definition doc_size (document : Document) : nat :=
  list_sum (map String.length document).

(** Every turn but the first starts on a character of the document and the
    cursor moves one character on, so [doc_size + 2] turns are enough
    (theorem [scan_fuel_enough] below). *)
Definition scan_fuel (document : Document) : nat := S (S (doc_size document)).

Definition scan_init (pos : Cursor) : ScanState := mkScan pos 0 None.

(** matchingParenthesisPosition(document, position, opening).  The last
    branch is never taken. *)
Definition matchingParenthesisPosition (document : Document) (pos : Cursor)
    (opening : ascii) : ParseError + Cursor :=
  match scan_loop (scan_fuel document) document opening (scan_init pos) with
  | Some r => r
  | None => inl EndOfFileReached
  end.

(* ===================================================================== *)
(** * 3. Exceptions and Python strings *)
(* ===================================================================== *)

(** The exceptions the engine can end in. *)
Inductive Exception : Type :=
| ExcParseError (e : ParseError)
| ExcIndexError
| ExcValueError
| ExcAssertionError
| ExcTypeError
| ExcLoadError (path : string)
| ExcOther (text : string).

(** A computation that returns or raises. *)
Inductive Result (A : Type) : Type :=
| Ok (a : A)
| Err (e : Exception).
Arguments Ok {A} a.
Arguments Err {A} e.

#[global] Instance Result_ret : MRet Result := fun A a => Ok a.
#[global] Instance Result_bind : MBind Result := fun A B k m =>
  match m with
  | Ok a => k a
  | Err e => Err e
  end.

(** A ParseError of the matcher, as an exception of the caller. *)
Definition lift_parse {A} (r : ParseError + A) : Result A :=
  match r with
  | inl e => Err (ExcParseError e)
  | inr a => Ok a
  end.

Definition strlen (s : string) : Z := Z.of_nat (String.length s).

(** [s[i]] in Python: a negative index counts from the end, and an index
    outside [-len, len) raises IndexError. *)
Definition py_index (s : string) (i : Z) : Result ascii :=
  let j := if i <? 0 then strlen s + i else i in
  if j <? 0 then Err ExcIndexError
  else match String.get (Z.to_nat j) s with
       | Some c => Ok c
       | None => Err ExcIndexError
       end.

(** [s[1:-1]] *)
Fixpoint drop_last (s : string) : string :=
  match s with
  | EmptyString => EmptyString
  | String c EmptyString => EmptyString
  | String c rest => String c (drop_last rest)
  end.

Definition slice_1_m1 (s : string) : string :=
  match s with
  | EmptyString => EmptyString
  | String _ rest => drop_last rest
  end.

(** [s.split(sep)] for a one-character separator: never an empty list. *)
Fixpoint split (sep : ascii) (s : string) : list string :=
  match s with
  | EmptyString => [EmptyString]
  | String c rest =>
      if Ascii.eqb c sep then EmptyString :: split sep rest
      else match split sep rest with
           | piece :: pieces => String c piece :: pieces
           | [] => [String c EmptyString]
           end
  end.

(** [sep in s] *)
Fixpoint contains (sep : ascii) (s : string) : bool :=
  match s with
  | EmptyString => false
  | String c rest => Ascii.eqb c sep || contains sep rest
  end.

(** Python's whitespace among the code points below 256. *)
Definition is_space (c : ascii) : bool :=
  let n := N_of_ascii c in
  ((9 <=? n) && (n <=? 13) || (28 <=? n) && (n <=? 32)
   || (n =? 133) || (n =? 160))%N.

Fixpoint lstrip (s : string) : string :=
  match s with
  | EmptyString => EmptyString
  | String c rest => if is_space c then lstrip rest else s
  end.

Fixpoint rstrip (s : string) : string :=
  match s with
  | EmptyString => EmptyString
  | String c rest =>
      match rstrip rest with
      | EmptyString => if is_space c then EmptyString else String c EmptyString
      | r => String c r
      end
  end.

(** [s.strip()] *)
Definition strip (s : string) : string := rstrip (lstrip s).

(** [bool(s)] *)
Definition nonempty (s : string) : bool :=
  match s with EmptyString => false | _ => true end.

(** [s[a:b]] for [0 <= a]. *)
Definition substr (s : string) (a b : Z) : string :=
  String.substring (Z.to_nat a) (Z.to_nat (b - a)) s.

(** [sep.join(pieces)] *)
Fixpoint join (sep : string) (pieces : list string) : string :=
  match pieces with
  | [] => EmptyString
  | [p] => p
  | p :: rest => p +:+ sep +:+ join sep rest
  end.

(* ===================================================================== *)
(** * 4. The cursor locator *)
(* ===================================================================== *)

Definition is_identifier_char (c : ascii) : bool :=
  let n := N_of_ascii c in
  ((48 <=? n) && (n <=? 57) || (65 <=? n) && (n <=? 90)
   || (97 <=? n) && (n <=? 122) || (n =? 95))%N.

(** Modelled from the spec: [common.IDENTIFIER_BOUNDARIES] of libkatepate
    is not among the sources.  The spec fixes the identifier characters as
    letters, digits and underscore; every other character is a boundary. *)
Definition IDENTIFIER_BOUNDARIES (c : ascii) : bool :=
  negb (is_identifier_char c).

(** The number of leading characters of [s] that are no boundary. *)
Fixpoint run_length (boundary : ascii -> bool) (s : string) : nat :=
  match s with
  | EmptyString => O
  | String c rest => if boundary c then O else S (run_length boundary rest)
  end.

Fixpoint string_rev (s : string) : string :=
  match s with
  | EmptyString => EmptyString
  | String c rest => string_rev rest +:+ String c EmptyString
  end.

(** Modelled from the spec: [common.getBoundTextRangeSL] of libkatepate is
    not among the sources.  Per the spec it finds the maximal contiguous run
    of identifier characters touching the cursor, in both directions, on the
    line of the cursor only, and a zero-width range when no identifier
    character touches the cursor. *)
Definition getBoundTextRangeSL (leftBoundary rightBoundary : ascii -> bool)
    (pos : Cursor) (doc : Document) : Range :=
  let lineStr := doc_line doc (line pos) in
  let cc := column pos in
  if (cc <? 0) || (strlen lineStr <? cc) then Range_of pos pos
  else
    let before := string_rev (substr lineStr 0 cc) in
    let after := substr lineStr cc (strlen lineStr) in
    let startPos := mkCursor (line pos)
                      (cc - Z.of_nat (run_length leftBoundary before)) in
    let endPos := mkCursor (line pos)
                    (cc + Z.of_nat (run_length rightBoundary after)) in
    Range_of startPos endPos.

(** The special case of lines 61-65 and of lines 69-73: the closing
    parenthesis is at [argument_end]; the result is the argument range and
    the cursor re-seated at the opening parenthesis. *)
Definition closing_case (document : Document) (argument_end : Cursor)
    : Result (option Range * Cursor) :=
  argument_start ←
    lift_parse (matchingParenthesisPosition document argument_end ")") ;
  let argument_end := setColumn argument_end (column argument_end + 1) in
  Ok (Some (Range_of argument_start argument_end), argument_start).

(** wordAndArgumentAtCursorRanges(document, cursor) *)
Definition wordAndArgumentAtCursorRanges (document : Document)
    (cursor : Cursor) : Result (Range * option Range) :=
  let line_text := doc_line document (line cursor) in
  '(argument_range, cursor) ←
    (if 0 <? column cursor then
       '(argument_range, cursor) ←
         (if (column cursor <? strlen line_text)
              && is_char (String.get (Z.to_nat (column cursor)) line_text) ")"
          then closing_case document (mkCursor (line cursor) (column cursor))
          else Ok (None, cursor));
       ch ← py_index line_text (column cursor - 1);
       if Ascii.eqb ch ")"
       then closing_case document (mkCursor (line cursor) (column cursor - 1))
       else Ok (argument_range, cursor)
     else Ok (None, cursor));
  let word_range :=
    getBoundTextRangeSL IDENTIFIER_BOUNDARIES IDENTIFIER_BOUNDARIES
      cursor document in
  let end_ := column (range_end word_range) in
  match argument_range with
  | None =>
      if range_isValid word_range
         && (end_ <? strlen line_text)
         && is_char (String.get (Z.to_nat end_) line_text) "("
      then
        let argument_start := mkCursor (line cursor) end_ in
        argument_end ←
          lift_parse (matchingParenthesisPosition document argument_start "(");
        Ok (word_range, Some (Range_of argument_start argument_end))
      else Ok (word_range, None)
  | Some _ => Ok (word_range, argument_range)
  end.

(* ===================================================================== *)
(** * 5. The expansion registry *)
(* ===================================================================== *)

Definition _EXPANDS_EXT : string := ".expand".
Definition _EXPANDS_BASE_DIR : string := "expand".

(** A value an expansion function returns. *)
Inductive PyValue : Type :=
| VStr (s : string)
| VDict (d : gmap string string)
| VOther (repr : string).

(** What calling an expansion function ends in.  [except Exception] of
    line 296 catches the first kind of exception only. *)
Inductive CallResult : Type :=
| Returns (v : PyValue)
| RaisesException (text : string)
| RaisesBaseException (text : string).

(** A function object of a [.expand] file, with the attributes the engine
    probes with [hasattr].  Calling it does not touch the buffer. *)
Record Function : Type := mkFunction {
  __name__ : string;
  call : list string -> gmap string string -> CallResult;
  template : option string;
  use_template_iface : option bool
}.

(** The pair (function, path) stored under an expansion name. *)
Abbreviation Expansion := (Function * string)%type.

Inductive PyObject : Type :=
| ObjFunction (f : Function)
| ObjOther.

(** A module object: the names of [dir(module)], in its sorted order, each
    with the object [getattr] gives. *)
Definition PyModule : Type := list (string * PyObject).

(** What [imp.load_source(name, path)] ends in: the module object once the
    file has been executed in it, or the exception that leaves it, with
    the module object that stays registered under the name, if any. *)
Inductive LoadResult : Type :=
| Loaded (module : PyModule)
| LoadFailed (e : Exception) (kept : option PyModule).

(** The file system and the application directories, as the registry sees
    them.  [path_exists] is [os.path.exists].  [load_source registered path]
    is what [imp.load_source] does with the file at [path] when [registered]
    is the module object that [sys.modules] holds under the name of the
    file: [imp.load_source] creates the module object when there is none,
    and executes the file again in the one there is, which keeps the
    attributes that the file does not bind again. *)
Record FileSystem : Type := mkFileSystem {
  applicationDirectories : string -> list string;
  path_exists : string -> bool;
  load_source : option PyModule -> string -> LoadResult
}.

(** The messages of [kate.kDebug]. *)
Inductive LogMsg : Type :=
| LogLoading (path : string)
| LogAdding (name : string)
| LogIgnoreDuplicate (exp_key : string) (path : string)
| LogFirstDefinedHere (path : string)
| LogCollecting (mime : string)
| LogGot (n : nat).

(** [name.startswith('__')] *)
Definition startswith_dunder (name : string) : bool :=
  match name with
  | String "_" (String "_" _) => true
  | _ => false
  end.

(** [os.path.basename(path)] on POSIX. *)
Definition basename (path : string) : string :=
  List.last (split "/" path) EmptyString.

(** [os.path.basename(path).split('.')[0]] of line 141: the name under
    which the module object of the file is registered in [sys.modules]. *)
Definition module_name (path : string) : string :=
  hd EmptyString (split "." (basename path)).

(** loadExpansionsFromFile(path), with [sys.modules] before the call and
    after it. *)
Definition loadExpansionsFromFile (fs : FileSystem)
    (sys_modules : gmap string PyModule) (path : string)
    : Result (gmap string Expansion * list LogMsg) * gmap string PyModule :=
  let name := module_name path in
  match load_source fs (sys_modules !! name) path with
  | Loaded module =>
      (Ok (fold_left
             (fun '(expansions, log) '(name, o) =>
                match o with
                | ObjFunction f =>
                    if negb (startswith_dunder name)
                    then (<[__name__ f := (f, path)]> expansions,
                          log ++ [LogAdding (__name__ f)])
                    else (expansions, log)
                | ObjOther => (expansions, log)
                end)
             module (∅, [LogLoading path])),
       <[name := module]> sys_modules)
  | LoadFailed e kept =>
      (Err e,
       match kept with
       | Some module => <[name := module]> sys_modules
       | None => delete name sys_modules
       end)
  end.

(** One turn of the loop of mergeExpansions. *)
Definition merge_step (exp_key : string) (exp_tuple : Expansion)
    (acc : gmap string Expansion * list LogMsg)
    : gmap string Expansion * list LogMsg :=
  let '(result, log) := acc in
  match result !! exp_key with
  | None => (<[exp_key := exp_tuple]> result, log)
  | Some first =>
      (<[exp_key := first]> result,
       log ++ [LogIgnoreDuplicate exp_key (snd exp_tuple);
               LogFirstDefinedHere (snd first)])
  end.

(** mergeExpansions(left, right): the merged mapping (the object [left]
    itself, updated in place) and the messages logged. *)
Definition mergeExpansions (left_ right_ : gmap string Expansion)
    : gmap string Expansion * list LogMsg :=
  map_fold merge_step (left_, []) right_.

(** [s.replace(a, b)] for single characters. *)
Fixpoint replace_char (a b : ascii) (s : string) : string :=
  match s with
  | EmptyString => EmptyString
  | String c rest =>
      String (if Ascii.eqb c a then b else c) (replace_char a b rest)
  end.

(** [os.path.join(a, b)] on POSIX. *)
Definition path_join (a b : string) : string :=
  match b with
  | String "/" _ => b
  | _ =>
      match string_rev a with
      | EmptyString => b
      | String "/" _ => a +:+ b
      | _ => a +:+ "/" +:+ b
      end
  end.

(** The loop of _getExpansionsFor over the directories. *)
Fixpoint getExpansionsFor_loop (fs : FileSystem) (mime_filename : string)
    (directories : list string) (expansions : gmap string Expansion)
    (log : list LogMsg) (sys_modules : gmap string PyModule)
    : Result (gmap string Expansion * list LogMsg) * gmap string PyModule :=
  match directories with
  | [] => (Ok (expansions, log), sys_modules)
  | directory :: rest =>
      let path := path_join directory mime_filename in
      if path_exists fs path
      then
        match loadExpansionsFromFile fs sys_modules path with
        | (Ok (loaded, log1), sys_modules1) =>
            let '(merged, log2) := mergeExpansions expansions loaded in
            getExpansionsFor_loop fs mime_filename rest merged
              (log ++ log1 ++ log2) sys_modules1
        | (Err e, sys_modules1) => (Err e, sys_modules1)
        end
      else getExpansionsFor_loop fs mime_filename rest expansions log
             sys_modules
  end.

(** _getExpansionsFor(mime) *)
Definition _getExpansionsFor (fs : FileSystem) (mime : string)
    (sys_modules : gmap string PyModule)
    : Result (gmap string Expansion * list LogMsg) * gmap string PyModule :=
  let mime_filename := replace_char "/" "_" mime +:+ _EXPANDS_EXT in
  getExpansionsFor_loop fs mime_filename
    (applicationDirectories fs _EXPANDS_BASE_DIR) ∅ [] sys_modules.

(** The body of getExpansionsFor(mime), lines 186-189: the second call of
    [_getExpansionsFor] runs in the modules that the first one left. *)
Definition getExpansionsFor_body (fs : FileSystem) (mime : string)
    (sys_modules : gmap string PyModule)
    : Result (gmap string Expansion * list LogMsg) * gmap string PyModule :=
  match _getExpansionsFor fs mime sys_modules with
  | (Ok (specific, log1), sys_modules1) =>
      match _getExpansionsFor fs "all" sys_modules1 with
      | (Ok (wildcard, log2), sys_modules2) =>
          let '(result, log3) := mergeExpansions specific wildcard in
          (Ok (result,
               [LogCollecting mime] ++ log1 ++ log2 ++ log3
               ++ [LogGot (size result)]),
           sys_modules2)
      | (Err e, sys_modules2) => (Err e, sys_modules2)
      end
  | (Err e, sys_modules1) => (Err e, sys_modules1)
  end.

(** The state of the interpreter that the registry reads and writes: the
    modules loaded so far and the results that [functools.lru_cache] holds
    for [getExpansionsFor], by media type. *)
Record Interpreter : Type := mkInterpreter {
  sys_modules : gmap string PyModule;
  lru_cache : gmap string (gmap string Expansion)
}.

(** getExpansionsFor(mime) as its callers see it, lines 184-189: the body
    runs when the cache holds no result for the media type, and a result
    is kept when the body returns one.  The cache is taken to hold fewer
    media types than its size, so that nothing is evicted. *)
Definition getExpansionsFor (fs : FileSystem) (mime : string)
    (i : Interpreter) : Result (gmap string Expansion) * Interpreter :=
  match lru_cache i !! mime with
  | Some result => (Ok result, i)
  | None =>
      match getExpansionsFor_body fs mime (sys_modules i) with
      | (Ok (result, log), modules) =>
          (Ok result, mkInterpreter modules (<[mime := result]> (lru_cache i)))
      | (Err e, modules) => (Err e, mkInterpreter modules (lru_cache i))
      end
  end.

(* ===================================================================== *)
(** * 6. Reading and editing the buffer *)
(* ===================================================================== *)

Definition newline : ascii := "010"%char.

(** The lines [a..b] of the document, both included. *)
Definition lines_between (document : Document) (a b : Z) : list string :=
  firstn (Z.to_nat (b - a + 1)) (skipn (Z.to_nat a) document).

(** document.text(range): the lines of a range are joined by newlines; an
    invalid range has no text. *)
Definition text (document : Document) (r : Range) : string :=
  let s := range_start r in
  let e := range_end r in
  if negb (range_isValid r) then EmptyString
  else if line s =? line e then
    substr (doc_line document (line s)) (column s) (column e)
  else
    let first_line := doc_line document (line s) in
    let last_line := doc_line document (line e) in
    join (String newline EmptyString)
      ([substr first_line (column s) (strlen first_line)]
       ++ lines_between document (line s + 1) (line e - 1)
       ++ [substr last_line 0 (column e)]).

(** document.removeText(range) *)
Definition removeText (document : Document) (r : Range) : Document :=
  let s := range_start r in
  let e := range_end r in
  if negb (range_isValid r) then document
  else match plainLine document (line s), plainLine document (line e) with
       | Some first_line, Some last_line =>
           firstn (Z.to_nat (line s)) document
           ++ [substr first_line 0 (column s)
               +:+ substr last_line (column e) (strlen last_line)]
           ++ skipn (Z.to_nat (line e) + 1) document
       | _, _ => document
       end.

(** document.insertText(pos, text) *)
Definition insertText (document : Document) (pos : Cursor) (t : string)
    : Document :=
  if negb (cursor_isValid pos) then document
  else match plainLine document (line pos) with
       | Some l =>
           let before := substr l 0 (column pos) in
           let after := substr l (column pos) (strlen l) in
           let pieces := split newline t in
           firstn (Z.to_nat (line pos)) document
           ++ match pieces with
              | [] => [before +:+ after]
              | [p] => [before +:+ p +:+ after]
              | p :: rest =>
                  [before +:+ p] ++ removelast rest
                  ++ [List.last rest EmptyString +:+ after]
              end
           ++ skipn (Z.to_nat (line pos) + 1) document
       | None => document
       end.

(* ===================================================================== *)
(** * 7. The invocation and rendering pipeline *)
(* ===================================================================== *)

Definition _JINJA_TEMPLATES_BASE_DIR : string :=
  path_join _EXPANDS_BASE_DIR "templates".

(** What [env.get_template(filename)] and [tpl.render(data)] end in. *)
Inductive TemplateResult : Type :=
| Rendered (t : string)
| TemplateError (message : string).

(** The collaborators of [expandAtCursor] outside this file, and the state
    of the interpreter when it is called. *)
Record Host : Type := mkHost {
  fs : FileSystem;
  interpreter : Interpreter;
  mimeType : string;
  cursorPosition : Cursor;
  findApplicationResource : string -> option string;
  render : string -> string -> gmap string string -> TemplateResult;
  templateInterface2 : bool
}.

(** The text of a popup of [kate.ui.popup]. *)
Inductive PopupText : Type :=
| MsgParseError (e : ParseError)
| MsgExpansionNotFound (word : string)
| MsgTraceback (s : string)
| MsgTemplateNotFound (name : string)
| MsgTemplateError (name : string) (message : string).

(** What the engine does to the outside, in order. *)
Inductive Event : Type :=
| EvPopup (title : string) (msg : PopupText) (icon : string)
| EvFindResource (path : string)
| EvStartEditing
| EvEndEditing
| EvRemoveText (r : Range)
| EvInsertText (pos : Cursor) (t : string)
| EvInsertTemplateText (pos : Cursor) (t : string).

(** The buffer and the trace of events so far. *)
Record World : Type := mkWorld {
  buffer : Document;
  events : list Event
}.

Definition emit (w : World) (e : Event) : World :=
  mkWorld (buffer w) (events w ++ [e]).

Definition popup (w : World) (title : string) (msg : PopupText)
    (icon : string) : World :=
  emit w (EvPopup title msg icon).

(** How a call of [expandAtCursor] ends: it returns after a report to the
    user, it returns after the edit, or an exception leaves it. *)
Inductive Outcome : Type :=
| Aborted
| Applied
| Uncaught (e : Exception).

(** Lines 281-286: the items with [=] go to the dictionary, the others to
    the list.  Unpacking into [key, value] needs exactly two parts. *)
Fixpoint classify_arguments (preArgs : list string) (arguments : list string)
    (namedArgs : gmap string string)
    : Result (list string * gmap string string) :=
  match preArgs with
  | [] => Ok (arguments, namedArgs)
  | arg :: rest =>
      if contains "=" arg then
        match map strip (split "=" arg) with
        | [key; value] =>
            classify_arguments rest arguments (<[key := value]> namedArgs)
        | _ => Err ExcValueError
        end
      else classify_arguments rest (arguments ++ [arg]) namedArgs
  end.

(** Line 278: strip the parentheses, split by comma, trim, drop the empty
    items. *)
Definition preArgs_of (argument_text : string) : list string :=
  map strip
    (List.filter (fun arg => nonempty (strip arg))
       (split "," (slice_1_m1 argument_text))).

(** Lines 274-286 *)
Definition parse_arguments (document : Document)
    (argument_range : option Range)
    : Result (list string * gmap string string) :=
  match argument_range with
  | Some r => classify_arguments (preArgs_of (text document r)) [] ∅
  | None => Ok ([], ∅)
  end.

(** [filename.find(sub)], when it is not -1. *)
Definition find (sub s : string) : option Z :=
  match String.index 0 sub s with
  | Some n => Some (Z.of_nat n)
  | None => None
  end.

(** Lines 334-371: the replacement of a function with a template. *)
Definition render_with_template (h : Host) (w : World) (name : string)
    (replacement : PyValue) : World * (Outcome + PyValue) :=
  match replacement with
  | VDict data =>
      let w := emit w (EvFindResource
                         (_JINJA_TEMPLATES_BASE_DIR +:+ "/" +:+ name)) in
      match findApplicationResource h
              (_JINJA_TEMPLATES_BASE_DIR +:+ "/" +:+ name) with
      | None | Some EmptyString =>
          (popup w "Error" (MsgTemplateNotFound name) "dialog-error",
           inl Aborted)
      | Some filename =>
          match find _JINJA_TEMPLATES_BASE_DIR filename with
          | None => (w, inl (Uncaught ExcAssertionError))
          | Some base_dir_pos =>
              let cut := base_dir_pos + strlen _JINJA_TEMPLATES_BASE_DIR in
              let basedir := substr filename 0 cut in
              let filename := substr filename (cut + 1) (strlen filename) in
              match render h basedir filename data with
              | Rendered t => (w, inr (VStr t))
              | TemplateError message =>
                  (popup w "Error" (MsgTemplateError name message)
                     "dialog-error",
                   inl Aborted)
              end
          end
      end
  | _ => (w, inl (Uncaught ExcAssertionError))
  end.

Definition remove (w : World) (r : Range) : World :=
  mkWorld (removeText (buffer w) r) (events w ++ [EvRemoveText r]).

(** Modelled from the spec: [kate.makeAtomicUndo] of kate/api.py is not
    among the sources.  Per the spec it is the scoped acquisition of an
    atomic edit: one undo transaction around the block, closed when the
    block is left, however it is left. *)
Definition makeAtomicUndo (w : World) (block : World -> World * Outcome)
    : World * Outcome :=
  let '(w', o) := block (emit w EvStartEditing) in
  (emit w' EvEndEditing, o).

(** Lines 374-393: the block of the [with] statement.  The editor takes a
    string only as the text to insert. *)
Definition edit_block (h : Host) (func : Function) (word_range : Range)
    (argument_range : option Range) (replacement : PyValue) (w : World)
    : World * Outcome :=
  let w := match argument_range with
           | Some r => remove w r
           | None => w
           end in
  let w := remove w word_range in
  match replacement with
  | VStr t =>
      if match use_template_iface func with
         | Some b => b
         | None => false
         end && templateInterface2 h
      then (emit w (EvInsertTemplateText (range_start word_range) t), Applied)
      else (mkWorld (insertText (buffer w) (range_start word_range) t)
              (events w ++ [EvInsertText (range_start word_range) t]),
            Applied)
  | _ => (w, Uncaught ExcTypeError)
  end.

(** expandAtCursor() *)
Definition expandAtCursor (h : Host) (w : World) : World * Outcome :=
  let document := buffer w in
  match wordAndArgumentAtCursorRanges document (cursorPosition h) with
  | Err (ExcParseError e) =>
      (popup w "Parse error" (MsgParseError e) "dialog-warning", Aborted)
  | Err e => (w, Uncaught e)
  | Ok (word_range, argument_range) =>
      let word := text document word_range in
      match fst (getExpansionsFor (fs h) (mimeType h) (interpreter h)) with
      | Err e => (w, Uncaught e)
      | Ok expansions =>
          match expansions !! word with
          | None =>
              (popup w "Error" (MsgExpansionNotFound word) "dialog-warning",
               Aborted)
          | Some (func, _) =>
              match parse_arguments document argument_range with
              | Err e => (w, Uncaught e)
              | Ok (arguments, namedArgs) =>
                  match call func arguments namedArgs with
                  | RaisesException s =>
                      (popup w "Error" (MsgTraceback s) "dialog-error",
                       Aborted)
                  | RaisesBaseException s => (w, Uncaught (ExcOther s))
                  | Returns replacement =>
                      let '(w, r) :=
                        match template func with
                        | Some name =>
                            render_with_template h w name replacement
                        | None => (w, inr replacement)
                        end in
                      match r with
                      | inl o => (w, o)
                      | inr replacement =>
                          makeAtomicUndo w
                            (edit_block h func word_range argument_range
                               replacement)
                      end
                  end
              end
          end
      end
  end.

(** The interpreter after expandAtCursor(): the registry is asked once,
    when the locator has found the word. *)
Definition interpreter_after (h : Host) (w : World) : Interpreter :=
  match wordAndArgumentAtCursorRanges (buffer w) (cursorPosition h) with
  | Ok _ => snd (getExpansionsFor (fs h) (mimeType h) (interpreter h))
  | Err _ => interpreter h
  end.

(* ===================================================================== *)
(** * 8. Help on the expansion at the cursor *)
(* ===================================================================== *)

(** The line boundaries of [str.splitlines] among the code points below
    256: line feed, vertical tab, form feed, carriage return, the three
    separators 28 to 30 and the next-line character 133. *)
Definition is_linebreak (c : ascii) : bool :=
  let n := N_of_ascii c in
  ((10 <=? n) && (n <=? 13) || (28 <=? n) && (n <=? 30) || (n =? 133))%N.

(** [s.splitlines()], with the line read so far; [after_cr] tells that the
    last character was a carriage return, whose line feed is no boundary of
    its own.  A last line without a boundary counts when it is not empty. *)
Fixpoint splitlines_from (cur : string) (after_cr : bool) (s : string)
    : list string :=
  match s with
  | EmptyString => if nonempty cur then [cur] else []
  | String c rest =>
      if after_cr && Ascii.eqb c newline
      then splitlines_from cur false rest
      else if is_linebreak c
      then cur :: splitlines_from EmptyString (Ascii.eqb c "013") rest
      else splitlines_from (cur +:+ String c EmptyString) false rest
  end.

Definition splitlines (s : string) : list string :=
  splitlines_from EmptyString false s.

(** Line 241: a line that starts with eight spaces loses them. *)
Definition dedent_line (l : string) : string :=
  if String.prefix "        " l then substr l 8 (strlen l) else l.

(** Lines 240-242 *)
Definition tooltip_text (doc : string) : string :=
  join (String newline EmptyString) (map dedent_line (splitlines doc)).

(** What getHelpOnExpandAtCursor does to the outside. *)
Inductive HelpEvent : Type :=
| HelpPopup (title : string) (msg : PopupText) (icon : string)
| HelpToolTip (t : string).

(** getHelpOnExpandAtCursor(): the events and the exception that leaves the
    call, if any.  [__doc__] gives the docstring of a function, [None] for a
    function without one, of which [splitlines] is no attribute; where on
    the screen the tooltip is shown is left out. *)
Definition getHelpOnExpandAtCursor (h : Host)
    (__doc__ : Function -> option string) (document : Document)
    : list HelpEvent * option Exception :=
  match wordAndArgumentAtCursorRanges document (cursorPosition h) with
  | Err (ExcParseError e) =>
      ([HelpPopup "Parse error" (MsgParseError e) "dialog-warning"], None)
  | Err e => ([], Some e)
  | Ok (word_range, argument_range) =>
      let word := text document word_range in
      match fst (getExpansionsFor (fs h) (mimeType h) (interpreter h)) with
      | Err e => ([], Some e)
      | Ok expansions =>
          match expansions !! word with
          | Some (func, _) =>
              match __doc__ func with
              | Some doc => ([HelpToolTip (tooltip_text doc)], None)
              | None => ([], Some (ExcOther "AttributeError"))
              end
          | None => ([], None)
          end
      end
  end.

(* ===================================================================== *)
(** * 9. The event listeners and the action handler (kate/__init__.py) *)
(* ===================================================================== *)

(** What a call of a function registered for an event does: it leaves the
    state of the plugin as [after], it returns or raises, [raised] being the
    traceback of what it raised, and [resized] tells that the set of
    functions being called has another number of members than before the
    call, as when the function registers one for the same event or clears
    them.  A call that changes the members and keeps their number is left
    out. *)
Record Called (S : Type) : Type := mkCalled {
  after : S;
  raised : option string;
  resized : bool
}.
Arguments mkCalled {S} after raised resized.
Arguments after {S} c.
Arguments raised {S} c.
Arguments resized {S} c.

Definition Listener (S : Type) : Type := S -> Called S.

(** _callAll(l) for the set [l] of an event, in the order its iteration
    yields the functions: the state, what the loop has written to
    [sys.stderr], and whether the [for] statement has raised RuntimeError.
    What a function raises is printed, followed by a newline, and the loop
    goes on; the step of the iteration after a call that has resized the
    set raises, outside the [try], also when no function is left. *)
Fixpoint _callAll {S : Type} (l : list (Listener S)) (st : S)
    (stderr : list string) : S * list string * bool :=
  match l with
  | [] => (st, stderr, false)
  | f :: rest =>
      let c := f st in
      let stderr' :=
        match raised c with
        | Some traceback => stderr ++ [traceback; String newline EmptyString]
        | None => stderr
        end in
      if resized c then (after c, stderr', true)
      else _callAll rest (after c) stderr'
  end.

(** What a call of an action ends in: [RaisedHandled] is the
    [_HandledException] of this module, [RaisedException] another subclass
    of [Exception], with its formatted traceback, and [RaisedBase] an
    exception that is no [Exception]. *)
Inductive ActionEnd (V : Type) : Type :=
| Returned (v : V)
| RaisedHandled (txt : string)
| RaisedException (txt : string)
| RaisedBase (txt : string).
Arguments Returned {V} v.
Arguments RaisedHandled {V} txt.
Arguments RaisedException {V} txt.
Arguments RaisedBase {V} txt.

(** A message box of [KMessageBox.error]: its text and the name of the
    action in its caption. *)
Definition MessageBox : Type := (string * string)%type.

(** The traceback of the AttributeError that is raised while the exception
    with the traceback [txt] is handled. *)
Definition attribute_error (txt : string) : string :=
  txt +:+ "AttributeError".

(** catchAllHandler(f)(): [f] is the run of the wrapped function, the
    boxes it has shown and how it ended; [name] is [f.__name__], [None] for
    a callable without that attribute, as a catchAllHandler is itself.  The
    attribute is read among the arguments of [KMessageBox.error], inside
    the [except] block. *)
Definition catchAllHandler {V : Type} (name : option string)
    (f : list MessageBox * ActionEnd V) : list MessageBox * ActionEnd V :=
  let '(boxes, r) := f in
  match r with
  | Returned v => (boxes, Returned v)
  | RaisedHandled txt => (boxes, RaisedHandled txt)
  | RaisedException txt =>
      match name with
      | Some n => (boxes ++ [(txt, n)], RaisedHandled txt)
      | None => (boxes, RaisedException (attribute_error txt))
      end
  | RaisedBase txt => (boxes, RaisedBase txt)
  end.

(* ===================================================================== *)
(** * 10. Notions of the statements and their examples *)
(* ===================================================================== *)

(** A cursor stands on a character of the document. *)
Definition on_char (document : Document) (pos : Cursor) : Prop :=
  exists c, character document pos = Some c.

(** The number of characters before a cursor. *)
Definition offset (document : Document) (pos : Cursor) : Z :=
  Z.of_nat (list_sum (map String.length
                        (firstn (Z.to_nat (line pos)) document)))
  + column pos.

(** The turns left to a scan that stands on a character. *)
Definition turns_left (document : Document) (opening : ascii) (pos : Cursor)
    : Z :=
  if delta_of opening =? 1
  then Z.of_nat (doc_size document) - offset document pos
  else offset document pos + 1.

(** The state is [None] or one of the two quotes. *)
Definition state_ok (st : option ascii) : Prop :=
  st = None \/ in_quotes st = true.

Definition is_paren (o : ascii) : Prop := o = "("%char \/ o = ")"%char.

Ltac case_eqb :=
  repeat match goal with
    | |- context [Ascii.eqb ?a ?b] =>
        destruct (Ascii.eqb_spec a b); subst; simpl in *; try discriminate
    | H : context [Ascii.eqb ?a ?b] |- _ =>
        destruct (Ascii.eqb_spec a b); subst; simpl in *; try discriminate
    end.

(** The cursor the function returns when the match is at [x]: the forward
    scan steps past the closing parenthesis (line 113). *)
Definition break_pos (o : ascii) (x : Cursor) : Cursor :=
  if Ascii.eqb (closing_of o) ")"
  then setColumn x (column x + delta_of o)
  else x.

(** A character that is no parenthesis and no quote. *)
Definition plain (c : ascii) : Prop :=
  c <> "("%char /\ c <> ")"%char /\ in_quotes (Some c) = false.

(** The texts with balanced parentheses and no quote. *)
Inductive Balanced : list ascii -> Prop :=
| Balanced_nil : Balanced []
| Balanced_char (c : ascii) (w : list ascii) :
    plain c -> Balanced w -> Balanced (c :: w)
| Balanced_group (u w : list ascii) :
    Balanced u -> Balanced w ->
    Balanced (("("%char :: u) ++ ")"%char :: w).

(** Walking forward from [x], the characters met are [w], and the walk
    comes to stand on [y]: the lines crossed are not empty. *)
Fixpoint reads (document : Document) (x : Cursor) (w : list ascii)
    (y : Cursor) : Prop :=
  match w with
  | [] => x = y
  | c :: w' =>
      character document x = Some c
      /\ exists x', advance document "(" x None = inr x'
                    /\ reads document x' w' y
  end.

(** The buffer has an opening parenthesis at [p], the balanced, unquoted
    text [w] after it, and then a closing parenthesis at [q]. *)
Definition balanced_pair (document : Document) (p : Cursor) (w : list ascii)
    (q : Cursor) : Prop :=
  reads document p ("("%char :: w) q
  /\ character document q = Some ")"%char
  /\ Balanced w.

(** The characters of the buffer in reading order, the line ends left
    out. *)
Definition flat (document : Document) : list ascii :=
  concat (map list_ascii_of_string document).

(** [a] comes before [b] in reading order. *)
Definition cursor_before (a b : Cursor) : Prop :=
  line a < line b \/ (line a = line b /\ column a < column b).

(** The characters after the one at [p] and before the one at [q], the line
    ends left out; [offset] counts the characters before a cursor. *)
Definition enclosed (document : Document) (p q : Cursor) : list ascii :=
  firstn (Z.to_nat (offset document q - offset document p - 1))
    (skipn (Z.to_nat (offset document p + 1)) (flat document)).

(** The buffer has an opening parenthesis at [p] and a closing one at [q]
    after it, the text between them has balanced parentheses and no quote,
    and no line from the one of [p] to the one of [q] is empty. *)
Definition encloses_balanced (document : Document) (p q : Cursor) : Prop :=
  character document p = Some "("%char
  /\ character document q = Some ")"%char
  /\ cursor_before p q
  /\ (forall l, line p <= l <= line q -> lineLength document l <> 0)
  /\ Balanced (enclosed document p q).



(** The line [foo("a)b", c)]. *)
Definition quoted_call : Document :=
  ["foo(" +:+ String dquote "a)b" +:+ String dquote ", c)"].

(** Where the cursor lands when it wraps to the adjacent line. *)
Definition wrap_target (document : Document) (opening : ascii) (pos : Cursor)
    : Cursor :=
  let pos2 := setPosition (line pos + delta_of opening) 0 in
  if delta_of opening =? -1
  then setColumn pos2 (lineLength document (line pos2) - 1)
  else pos2.

(** The buffer with an empty line inside the argument list. *)
Definition call_over_empty_line : Document := ["f("; ""; "x)"].

(** The line of the call [foo(1, bar=2)]. *)
Definition foo_call : Document := ["xx foo(1, bar=2) yy"].

(** A call whose arguments end on a second, shorter line. *)
Definition two_line_call : Document := ["foo(1,"; "2)"].

(** The files scanned for a media type, in order: the file of the type in
    every search directory, then the file of the type "all" in every search
    directory. *)
Definition files_of (fs : FileSystem) (mime : string) : list string :=
  map (fun directory =>
         path_join directory (replace_char "/" "_" mime +:+ _EXPANDS_EXT))
    (applicationDirectories fs _EXPANDS_BASE_DIR).

Definition search_paths (fs : FileSystem) (mime : string) : list string :=
  files_of fs mime ++ files_of fs "all".

(** Binding [name] in a module object: the name gets the new object, the
    other names keep theirs, and [dir] lists the names sorted. *)
Fixpoint rebind (name : string) (o : PyObject) (module : PyModule)
    : PyModule :=
  match module with
  | [] => [(name, o)]
  | (n, o') :: rest =>
      match String.compare name n with
      | Eq => (name, o) :: rest
      | Lt => (name, o) :: module
      | Gt => (n, o') :: rebind name o rest
      end
  end.

(** Executing a file that binds the names of [bindings], in order, in the
    module object registered under its name, or in a new one. *)
Definition exec_file (bindings : PyModule) (registered : option PyModule)
    : LoadResult :=
  Loaded (fold_left (fun module '(name, o) => rebind name o module) bindings
            (default [] registered)).

Fixpoint file_at {A : Type} (files : list (string * A)) (path : string)
    : option A :=
  match files with
  | [] => None
  | (p, a) :: rest => if String.eqb p path then Some a else file_at rest path
  end.

(** The file system with the given search directories and files, each file
    either a list of bindings or the exception that executing it raises; a
    failed execution leaves what was registered. *)
Definition disk (directories : list string)
    (files : list (string * Result PyModule)) : FileSystem :=
  mkFileSystem
    (fun _ => directories)
    (fun path => match file_at files path with Some _ => true | None => false end)
    (fun registered path =>
       match file_at files path with
       | Some (Ok bindings) => exec_file bindings registered
       | Some (Err e) => LoadFailed e registered
       | None => LoadFailed (ExcLoadError path) registered
       end).

(** The interpreter before any expansion file is loaded. *)
Definition fresh : Interpreter := mkInterpreter ∅ ∅.

(** Two search directories, each with a file for C++ sources that defines
    the function [date]. *)
Definition date_first : Function :=
  mkFunction "date" (fun _ _ => Returns (VStr "first")) None None.

Definition date_second : Function :=
  mkFunction "date" (fun _ _ => Returns (VStr "second")) None None.

Definition two_directories : FileSystem :=
  disk ["/usr/share/expand"; "/home/me/expand"]
    [("/usr/share/expand/text_x-c++src.expand",
      Ok [("date", ObjFunction date_first)]);
     ("/home/me/expand/text_x-c++src.expand",
      Ok [("date", ObjFunction date_second)])].

(** Three search directories with a file for every type: the file of the
    first directory defines [shout] only, the files of the second and of
    the third each define a function [date]. *)
Definition shout : Function :=
  mkFunction "shout" (fun _ _ => Returns (VStr "!")) None None.

Definition three_directories : FileSystem :=
  disk ["/d1"; "/d2"; "/d3"]
    [("/d1/all.expand", Ok [("shout", ObjFunction shout)]);
     ("/d2/all.expand", Ok [("date", ObjFunction date_first)]);
     ("/d3/all.expand", Ok [("date", ObjFunction date_second)])].

(** The number of occurrences of a character. *)
Fixpoint count_char (sep : ascii) (s : string) : nat :=
  match s with
  | EmptyString => O
  | String c rest =>
      (if Ascii.eqb c sep then 1 else 0)%nat + count_char sep rest
  end.

(** The text of an item before its first [=], and the text after it. *)
Fixpoint before_equals (s : string) : string :=
  match s with
  | EmptyString => EmptyString
  | String c rest =>
      if Ascii.eqb c "=" then EmptyString else String c (before_equals rest)
  end.

Fixpoint after_equals (s : string) : string :=
  match s with
  | EmptyString => EmptyString
  | String c rest => if Ascii.eqb c "=" then rest else after_equals rest
  end.

(** The keyword arguments in the words of the spec: every item with one
    [=] gives the trimmed text before it as the key and the trimmed text
    after it as the value, a later item replacing an earlier one. *)
Definition keyword_arguments (preArgs : list string)
    (namedArgs : gmap string string) : gmap string string :=
  fold_left
    (fun d arg => <[strip (before_equals arg) := strip (after_equals arg)]> d)
    (List.filter (fun arg => (count_char "=" arg =? 1)%nat) preArgs)
    namedArgs.

(** A string that does not begin with white space. *)
Definition no_leading_space (s : string) : Prop :=
  match s with
  | EmptyString => True
  | String c _ => is_space c = false
  end.

(** The events that change the buffer. *)
Definition is_edit (e : Event) : bool :=
  match e with
  | EvRemoveText _ | EvInsertText _ _ | EvInsertTemplateText _ _ => true
  | _ => false
  end.

(** The events that change the buffer or open or close an undo scope. *)
Definition is_buffer_event (e : Event) : bool :=
  match e with
  | EvStartEditing | EvEndEditing => true
  | _ => is_edit e
  end.

Definition is_popup (e : Event) : bool :=
  match e with
  | EvPopup _ _ _ => true
  | _ => false
  end.

(** The events of a call that reports an error and leaves the buffer
    alone: at most the template lookup, then the popup. *)
Definition reported (w w' : World) : Prop :=
  buffer w' = buffer w
  /\ exists pre title msg icon,
       events w' = events w ++ pre ++ [EvPopup title msg icon]
       /\ Forall (fun e => is_buffer_event e = false) pre.

(** The events of a call that does not touch the buffer. *)
Definition untouched (w w' : World) : Prop :=
  buffer w' = buffer w
  /\ exists new,
       events w' = events w ++ new
       /\ Forall (fun e => is_buffer_event e = false) new.

(** The events of a call that edits: no popup, then one undo scope with
    all the edits in it. *)
Definition edited_in_one_scope (w w' : World) : Prop :=
  exists pre edits,
    events w' = events w ++ pre ++ [EvStartEditing] ++ edits ++ [EvEndEditing]
    /\ Forall (fun e => is_buffer_event e = false /\ is_popup e = false) pre
    /\ Forall (fun e => is_edit e = true) edits.

(** The edits of the block of the [with] statement. *)
Definition edits_of (h : Host) (func : Function) (word_range : Range)
    (argument_range : option Range) (replacement : PyValue) : list Event :=
  match argument_range with
  | Some r => [EvRemoveText r]
  | None => []
  end
  ++ [EvRemoveText word_range]
  ++ match replacement with
     | VStr t =>
         if match use_template_iface func with
            | Some b => b
            | None => false
            end && templateInterface2 h
         then [EvInsertTemplateText (range_start word_range) t]
         else [EvInsertText (range_start word_range) t]
     | _ => []
     end.

(** The call reaches the invocation of [func], found under the word at the
    cursor, and the invocation ends in [r]. *)
Definition invoked (h : Host) (w : World) (word_range : Range)
    (argument_range : option Range) (func : Function) (r : CallResult)
    : Prop :=
  wordAndArgumentAtCursorRanges (buffer w) (cursorPosition h)
  = Ok (word_range, argument_range)
  /\ exists expansions path arguments namedArgs,
       fst (getExpansionsFor (fs h) (mimeType h) (interpreter h))
       = Ok expansions
       /\ expansions !! text (buffer w) word_range = Some (func, path)
       /\ parse_arguments (buffer w) argument_range
          = Ok (arguments, namedArgs)
       /\ call func arguments namedArgs = r.

(** An expansion with a template that returns no dictionary, one that
    returns one, and a plain one. *)
Definition hello : Function :=
  mkFunction "hello" (fun _ _ => Returns (VOther "None")) (Some "hi.tmpl")
    None.

Definition greet : Function :=
  mkFunction "greet" (fun _ _ => Returns (VDict {["name" := "x"]}))
    (Some "hi.tmpl") None.

Definition today : Function :=
  mkFunction "today" (fun _ _ => Returns (VStr "2013-05-01")) None None.

(** A plain expansion that returns no string: its [return] is missing. *)
Definition stamp : Function :=
  mkFunction "stamp" (fun _ _ => Returns (VOther "None")) None None.

Definition one_directory : FileSystem :=
  disk ["/usr/share/expand"]
    [("/usr/share/expand/all.expand",
      Ok [("greet", ObjFunction greet);
          ("hello", ObjFunction hello);
          ("stamp", ObjFunction stamp);
          ("today", ObjFunction today)])].

(** A host with the cursor in the word of line 0 and no template file,
    before any expansion file is loaded. *)
Definition plain_host : Host :=
  mkHost one_directory fresh "text/plain" (mkCursor 0 2) (fun _ => None)
    (fun _ _ _ => Rendered EmptyString) false.

Ltac locator_tail H :=
  simpl in H;
  repeat match type of H with
    | match ?ar with Some _ => _ | None => _ end = _ => destruct ar
    | (if ?b then _ else _) = _ => destruct b
    end;
  try discriminate;
  match type of H with
  | context [matchingParenthesisPosition ?d ?p ?o] =>
      destruct (matchingParenthesisPosition d p o) as [pe|p'];
      simpl in H; [|discriminate];
      injection H as <-; left; eauto
  end.

(** One turn of the loop of loadExpansionsFromFile (lines 145-154). *)
Definition load_step (path : string)
    (acc : gmap string Expansion * list LogMsg) (entry : string * PyObject)
    : gmap string Expansion * list LogMsg :=
  let '(expansions, log) := acc in
  let '(name, o) := entry in
  match o with
  | ObjFunction f =>
      if negb (startswith_dunder name)
      then (<[__name__ f := (f, path)]> expansions,
            log ++ [LogAdding (__name__ f)])
      else (expansions, log)
  | ObjOther => (expansions, log)
  end.

(** A file whose function [helper] carries the name [__date]. *)
Definition renamed_function : Function :=
  mkFunction "__date" (fun _ _ => Returns (VStr "d")) None None.

Definition renaming_file : FileSystem :=
  disk ["/e"]
    [("/e/all.expand",
      Ok [("__doc__", ObjOther); ("helper", ObjFunction renamed_function)])].

(** A file with two functions of the name [date]. *)
Definition two_dates : FileSystem :=
  disk ["/e"]
    [("/e/all.expand",
      Ok [("a", ObjFunction date_first); ("b", ObjFunction date_second)])].

(** A scanned file that does not fail to load: it is missing, or it loads
    whatever is registered under its name. *)
Definition loads (fs : FileSystem) (path : string) : Prop :=
  path_exists fs path = false
  \/ forall registered, exists module,
       load_source fs registered path = Loaded module.

(** A scanned file that is there and fails to load with [e], whatever is
    registered under its name. *)
Definition fails (fs : FileSystem) (path : string) (e : Exception) : Prop :=
  path_exists fs path = true
  /\ forall registered, exists kept,
       load_source fs registered path = LoadFailed e kept.

(** A directory whose file for every type is broken, while the one for the
    type loads. *)
Definition broken_all_file : FileSystem :=
  disk ["/e"]
    [("/e/text_plain.expand", Ok [("today", ObjFunction today)]);
     ("/e/all.expand", Err (ExcOther "SyntaxError"))].

(** The number of popups among some events. *)
Definition popups (l : list Event) : nat :=
  List.length (List.filter is_popup l).

(** Two worlds whose new events differ are different. *)
Ltac events_differ H :=
  unfold popup, emit in H; simpl in H;
  repeat match type of H with
    | (_, _) = (_, _) => injection H as H
    | mkWorld _ _ = mkWorld _ _ => injection H as H
    end;
  rewrite <- ?app_assoc in H; apply app_inv_head in H; discriminate.

(** The listeners that raise, each on the state the ones before it left. *)
Fixpoint raising {S : Type} (l : list (Listener S)) (st : S) : nat :=
  match l with
  | [] => O
  | f :: rest =>
      (match raised (f st) with Some _ => 1 | None => 0 end
       + raising rest (after (f st)))%nat
  end.

(** No listener resizes the set, each on the state the ones before it
    left. *)
Fixpoint quiet {S : Type} (l : list (Listener S)) (st : S) : bool :=
  match l with
  | [] => true
  | f :: rest => negb (resized (f st)) && quiet rest (after (f st))
  end.

(** Listeners on a counter: one that counts, one that counts and raises,
    and one that counts and registers a listener for the same event. *)
Definition counting : Listener nat := fun n => mkCalled (S n) None false.

Definition failing : Listener nat :=
  fun n => mkCalled (S n) (Some "boom") false.

Definition registering : Listener nat := fun n => mkCalled (S n) None true.

(* ===================================================================== *)
(** * 11. The delimiter matcher: the loop ends *)
(* ===================================================================== *)

Lemma get_Some_lt (s : string) (n : nat) (c : ascii) :
  String.get n s = Some c -> (n < String.length s)%nat.
Proof.
  revert n. induction s as [|a s IH]; intros n H; simpl in *.
  - discriminate.
  - destruct n as [|n]; [lia|]. apply IH in H. lia.
Qed.

Lemma get_lt_Some (s : string) (n : nat) :
  (n < String.length s)%nat -> exists c, String.get n s = Some c.
Proof.
  revert n. induction s as [|a s IH]; intros n H; simpl in *.
  - lia.
  - destruct n as [|n]; [eauto|]. apply IH. lia.
Qed.

Lemma get_None_ge (s : string) (n : nat) :
  String.get n s = None -> (String.length s <= n)%nat.
Proof.
  intros H. destruct (Nat.lt_ge_cases n (String.length s)) as [Hlt|Hge];
    [|exact Hge].
  apply get_lt_Some in Hlt. destruct Hlt as [c Hc]. congruence.
Qed.

Lemma character_Some (document : Document) (pos : Cursor) (c : ascii) :
  character document pos = Some c ->
  exists s, nth_error document (Z.to_nat (line pos)) = Some s
            /\ 0 <= line pos /\ 0 <= column pos < strlen s.
Proof.
  unfold character, plainLine, strlen. intros H.
  destruct (line pos <? 0) eqn:Hl; [discriminate|].
  destruct (nth_error document (Z.to_nat (line pos))) as [s|] eqn:Hn;
    [|discriminate].
  destruct (column pos <? 0) eqn:Hc; [discriminate|].
  apply get_Some_lt in H. exists s. repeat split; try lia.
Qed.

Lemma character_None (document : Document) (pos : Cursor) (s : string) :
  character document pos = None ->
  0 <= line pos ->
  nth_error document (Z.to_nat (line pos)) = Some s ->
  column pos < 0 \/ strlen s <= column pos.
Proof.
  unfold character, plainLine, strlen. intros H Hl Hn.
  destruct (line pos <? 0) eqn:Hl'; [lia|]. rewrite Hn in H.
  destruct (column pos <? 0) eqn:Hc; [lia|].
  apply get_None_ge in H. lia.
Qed.

Lemma list_sum_firstn_le (l : list nat) (n : nat) :
  (list_sum (firstn n l) <= list_sum l)%nat.
Proof.
  revert n. induction l as [|a l IH]; intros [|n]; simpl; try lia.
  specialize (IH n). lia.
Qed.

Lemma firstn_S_nth {A} (l : list A) (n : nat) (a : A) :
  nth_error l n = Some a -> firstn (S n) l = firstn n l ++ [a].
Proof.
  revert n. induction l as [|b l IH]; intros [|n] H; simpl in *;
    try discriminate.
  - inversion H; subst. reflexivity.
  - f_equal. apply IH. exact H.
Qed.

Lemma prefix_S (document : Document) (n : nat) (s : string) :
  nth_error document n = Some s ->
  list_sum (map String.length (firstn (S n) document))
  = (list_sum (map String.length (firstn n document)) + String.length s)%nat.
Proof.
  intros H. rewrite (firstn_S_nth _ _ _ H), map_app, list_sum_app.
  simpl. lia.
Qed.

Lemma offset_bounds (document : Document) (pos : Cursor) :
  on_char document pos ->
  0 <= offset document pos < Z.of_nat (doc_size document).
Proof.
  intros [c Hc]. apply character_Some in Hc.
  destruct Hc as (s & Hn & Hl & Hc). unfold offset, doc_size, strlen in *.
  pose proof (prefix_S _ _ _ Hn) as HS.
  pose proof (list_sum_firstn_le (map String.length document)
                (S (Z.to_nat (line pos)))) as Hle.
  rewrite firstn_map, HS in Hle. lia.
Qed.

Lemma delta_cases (opening : ascii) :
  delta_of opening = 1 \/ delta_of opening = -1.
Proof. unfold delta_of. destruct (Ascii.eqb opening "("); auto. Qed.

(** The cursor [advance] yields stands on a character. *)
Lemma advance_on_char (document : Document) (opening : ascii) (pos pos' : Cursor)
    (st : option ascii) :
  advance document opening pos st = inr pos' -> on_char document pos'.
Proof.
  unfold advance, on_char. intros H.
  destruct (character document
              (setColumn pos (column pos + delta_of opening))) eqn:H1.
  - inversion H; subst. eauto.
  - match type of H with
    | match character document ?p with _ => _ end = _ =>
        destruct (character document p) eqn:H3; [|discriminate]
    end.
    destruct st as [q|]; [destruct (in_quotes (Some q)); [discriminate|]|];
      inversion H; subst; eauto.
Qed.

(** From a character of the document, [advance] moves one character on in
    its direction: a line wrap lands on the neighbouring character. *)
Lemma advance_offset (document : Document) (opening : ascii) (pos pos' : Cursor)
    (st : option ascii) :
  on_char document pos ->
  advance document opening pos st = inr pos' ->
  offset document pos' = offset document pos + delta_of opening.
Proof.
  intros [c Hc] H. apply character_Some in Hc.
  destruct Hc as (s & Hn & Hl & Hc).
  unfold advance in H.
  destruct (character document
              (setColumn pos (column pos + delta_of opening))) eqn:H1.
  { inversion H; subst. unfold offset; simpl. lia. }
  assert (Hp1 : column pos + delta_of opening < 0
                \/ strlen s <= column pos + delta_of opening).
  { apply (character_None document _ s H1); simpl; auto. }
  match type of H with
  | match character document ?p with _ => _ end = _ =>
      destruct (character document p) eqn:H3; [|discriminate];
      assert (pos' = p) as ->
        by (destruct st as [q|];
            [destruct (in_quotes (Some q)); [discriminate|]|];
            congruence)
  end.
  clear H. apply character_Some in H3. destruct H3 as (s' & Hn' & Hl' & Hc').
  destruct (delta_cases opening) as [Hd|Hd]; rewrite Hd in *; simpl in *.
  - (* forward: the first character of the next line *)
    assert (Hcol : column pos + 1 = strlen s) by lia.
    unfold offset; simpl.
    replace (Z.to_nat (line pos + 1)) with (S (Z.to_nat (line pos))) by lia.
    rewrite (prefix_S _ _ _ Hn). unfold strlen in *. lia.
  - (* backward: the last character of the previous line *)
    assert (Hcol : column pos = 0) by lia.
    unfold lineLength, plainLine in *; simpl in *.
    destruct (line pos + -1 <? 0) eqn:Hneg; [lia|].
    rewrite Hn' in *. simpl in *.
    unfold offset; simpl.
    replace (Z.to_nat (line pos)) with (S (Z.to_nat (line pos + -1))) by lia.
    rewrite (prefix_S _ _ _ Hn'). lia.
Qed.

Lemma loop_body_Continue (document : Document) (opening : ascii)
    (s s' : ScanState) :
  loop_body document opening s = Continue s' ->
  advance document opening (position s) (state s') = inr (position s').
Proof.
  unfold loop_body. intros H.
  destruct (scan_char opening (character document (position s))
              (level s) (state s)) as [[lv st] m].
  destruct m; [discriminate|].
  destruct (advance document opening (position s) st) eqn:Ha;
    [discriminate|].
  inversion H; subst. simpl. exact Ha.
Qed.

Lemma scan_loop_ends_from_char (document : Document) (opening : ascii)
    (fuel : nat) (s : ScanState) :
  on_char document (position s) ->
  turns_left document opening (position s) <= Z.of_nat fuel ->
  exists r, scan_loop fuel document opening s = Some r.
Proof.
  revert s. induction fuel as [|fuel IH]; intros s Hon Hle.
  - pose proof (offset_bounds _ _ Hon). unfold turns_left in Hle.
    destruct (delta_of opening =? 1); lia.
  - simpl. destruct (loop_body document opening s) as [s'| |] eqn:Hb; eauto.
    apply loop_body_Continue in Hb.
    apply IH.
    + eapply advance_on_char; eauto.
    + pose proof (advance_offset _ _ _ _ _ Hon Hb) as Ho.
      unfold turns_left in *. rewrite Ho.
      destruct (delta_cases opening) as [Hd|Hd]; rewrite Hd in *; simpl in *;
        lia.
Qed.

Lemma scan_loop_S (document : Document) (opening : ascii) (fuel : nat)
    (s : ScanState) :
  scan_loop (S fuel) document opening s
  = match loop_body document opening s with
    | Continue s' => scan_loop fuel document opening s'
    | Break p => Some (inr p)
    | Raise e => Some (inl e)
    end.
Proof. reflexivity. Qed.

(** The loop always ends within [scan_fuel] turns: the last branch of
    [matchingParenthesisPosition] is dead. *)
Theorem scan_fuel_enough (document : Document) (opening : ascii)
    (pos : Cursor) :
  exists r,
    scan_loop (scan_fuel document) document opening (scan_init pos) = Some r.
Proof.
  unfold scan_fuel. rewrite scan_loop_S.
  destruct (loop_body document opening (scan_init pos)) as [s'| |] eqn:Hb;
    eauto.
  apply loop_body_Continue in Hb.
  pose proof (advance_on_char _ _ _ _ _ Hb) as Hon.
  apply scan_loop_ends_from_char; [exact Hon|].
  pose proof (offset_bounds _ _ Hon). unfold turns_left.
  destruct (delta_of opening =? 1); lia.
Qed.

Lemma scan_loop_more_fuel (document : Document) (opening : ascii)
    (fuel fuel' : nat) (s : ScanState) (r : ParseError + Cursor) :
  scan_loop fuel document opening s = Some r ->
  (fuel <= fuel')%nat ->
  scan_loop fuel' document opening s = Some r.
Proof.
  revert fuel' s. induction fuel as [|fuel IH]; intros fuel' s H Hle.
  - discriminate.
  - destruct fuel' as [|fuel']; [lia|]. simpl in *.
    destruct (loop_body document opening s); auto. apply IH; [exact H|lia].
Qed.

(** Any run of the loop that ends gives the result of the function. *)
Lemma matching_of_scan_loop (document : Document) (opening : ascii)
    (pos : Cursor) (fuel : nat) (r : ParseError + Cursor) :
  scan_loop fuel document opening (scan_init pos) = Some r ->
  matchingParenthesisPosition document pos opening = r.
Proof.
  intros H. unfold matchingParenthesisPosition.
  destruct (scan_fuel_enough document opening pos) as [r' Hr'].
  rewrite Hr'.
  pose proof (scan_loop_more_fuel _ _ _ (Nat.max fuel (scan_fuel document))
                _ _ H (Nat.le_max_l _ _)) as H1.
  pose proof (scan_loop_more_fuel _ _ _ (Nat.max fuel (scan_fuel document))
                _ _ Hr' (Nat.le_max_r _ _)) as H2.
  congruence.
Qed.

Lemma scan_loop_of_matching (document : Document) (opening : ascii)
    (pos : Cursor) (r : ParseError + Cursor) :
  matchingParenthesisPosition document pos opening = r ->
  scan_loop (scan_fuel document) document opening (scan_init pos) = Some r.
Proof.
  unfold matchingParenthesisPosition.
  destruct (scan_fuel_enough document opening pos) as [r' Hr'].
  rewrite Hr'. congruence.
Qed.

(* ===================================================================== *)
(** * 12. The delimiter matcher: a scan can be walked back *)
(* ===================================================================== *)

Lemma closing_of_involutive (o : ascii) :
  is_paren o -> closing_of (closing_of o) = o.
Proof. intros [->| ->]; reflexivity. Qed.

Lemma closing_is_paren (o : ascii) : is_paren o -> is_paren (closing_of o).
Proof. intros [->| ->]; [right|left]; reflexivity. Qed.

Lemma delta_closing (o : ascii) :
  is_paren o -> delta_of (closing_of o) = - delta_of o.
Proof. intros [->| ->]; reflexivity. Qed.

(** What a character does to [level] and [state] in one direction, it
    undoes in the other; the other direction matches on it exactly when it
    is that direction's closing delimiter, met outside quotes at level 0. *)
Lemma scan_char_reverse (o : ascii) (ch : option ascii) (lv lv' : Z)
    (st st' : option ascii) (m : bool) :
  is_paren o -> state_ok st ->
  scan_char o ch lv st = (lv', st', m) ->
  state_ok st'
  /\ scan_char (closing_of o) ch lv' st'
     = (lv, st, is_char ch o && negb (in_quotes st) && (lv =? 0)).
Proof.
  intros Ho Hst H. unfold scan_char in H.
  destruct (in_quotes st) eqn:Hq.
  - (* inside a quoted span *)
    destruct st as [q|]; [|discriminate].
    destruct ch as [c|].
    + destruct (Ascii.eqb_spec c q) as [->|Hne].
      * injection H as <- <- <-. split; [left; reflexivity|].
        unfold scan_char. simpl.
        simpl in Hq. rewrite Hq.
        destruct Ho as [->| ->]; simpl in *; case_eqb;
          rewrite ?andb_false_r; reflexivity.
      * injection H as <- <- <-. split; [right; exact Hq|].
        unfold scan_char. rewrite Hq.
        destruct (Ascii.eqb_spec c q); [contradiction|].
        rewrite andb_false_r. reflexivity.
    + injection H as <- <- <-. split; [right; exact Hq|].
      unfold scan_char. rewrite Hq. reflexivity.
  - (* outside *)
    assert (st = None) as -> by (destruct Hst as [->|Hst]; congruence).
    destruct (is_char ch o) eqn:Hco.
    + injection H as <- <- <-. split; [left; reflexivity|].
      destruct ch as [c|]; [|discriminate]. simpl in Hco.
      apply Ascii.eqb_eq in Hco. subst c.
      unfold scan_char. simpl.
      destruct Ho as [->| ->]; simpl;
        replace (lv + 1 - 1) with lv by lia; reflexivity.
    + destruct (is_char ch (closing_of o)) eqn:Hcc.
      * injection H as <- <- <-. split; [left; reflexivity|].
        destruct ch as [c|]; [|discriminate]. simpl in Hcc.
        apply Ascii.eqb_eq in Hcc. subst c.
        unfold scan_char. simpl.
        destruct Ho as [->| ->]; simpl;
          replace (lv - 1 + 1) with lv by lia; reflexivity.
      * destruct (in_quotes ch) eqn:Hqc.
        -- injection H as <- <- <-. split; [right; exact Hqc|].
           destruct ch as [c|]; [|discriminate].
           unfold scan_char. rewrite Hqc.
           rewrite Ascii.eqb_refl. reflexivity.
        -- injection H as <- <- <-. split; [left; reflexivity|].
           unfold scan_char. simpl. rewrite Hqc, Hcc.
           rewrite (closing_of_involutive o Ho), Hco. reflexivity.
Qed.

Lemma setColumn_back (x : Cursor) (d : Z) :
  setColumn (setColumn x (column x + d)) (column x + d + - d) = x.
Proof. destruct x as [l c]. unfold setColumn. simpl. f_equal. lia. Qed.

Lemma lineLength_nth (document : Document) (l : Z) (s : string) :
  0 <= l -> nth_error document (Z.to_nat l) = Some s ->
  lineLength document l = strlen s.
Proof.
  intros Hl Hn. unfold lineLength, plainLine.
  destruct (l <? 0) eqn:E; [lia|]. rewrite Hn. reflexivity.
Qed.

Lemma character_neg_column (document : Document) (l c : Z) :
  c < 0 -> character document (mkCursor l c) = None.
Proof.
  intros Hc. unfold character. simpl.
  destruct (plainLine document l); [|reflexivity].
  destruct (c <? 0) eqn:E; [reflexivity|lia].
Qed.

Lemma character_at_length (document : Document) (l : Z) (s : string) :
  0 <= l -> nth_error document (Z.to_nat l) = Some s ->
  character document (mkCursor l (strlen s)) = None.
Proof.
  intros Hl Hn. unfold character, plainLine, strlen. simpl.
  destruct (l <? 0) eqn:E; [lia|]. rewrite Hn.
  destruct (Z.of_nat (String.length s) <? 0) eqn:E'; [reflexivity|].
  destruct (String.get _ s) eqn:G; [|reflexivity].
  apply get_Some_lt in G. lia.
Qed.

(** The step of one direction, taken from a character of the document, is
    undone by the step of the other direction. *)
Lemma advance_reverse (document : Document) (o : ascii) (x x' : Cursor)
    (st : option ascii) :
  is_paren o -> on_char document x ->
  advance document o x st = inr x' ->
  advance document (closing_of o) x' st = inr x.
Proof.
  intros Ho [c Hx] H. pose proof Hx as Hx0.
  apply character_Some in Hx. destruct Hx as (s & Hn & Hl & Hc).
  unfold advance in H.
  destruct (character document (setColumn x (column x + delta_of o)))
    eqn:H1.
  - (* the same line *)
    injection H as <-. unfold advance.
    rewrite (delta_closing o Ho). simpl.
    rewrite setColumn_back. rewrite Hx0. reflexivity.
  - (* the neighbouring line *)
    assert (Hp1 : column x + delta_of o < 0
                  \/ strlen s <= column x + delta_of o).
    { apply (character_None document _ s H1); simpl; auto. }
    match type of H with
    | match character document ?p with _ => _ end = _ =>
        destruct (character document p) eqn:H3; [|discriminate];
        assert (Hst : (match st with
                       | Some q => in_quotes st
                       | None => false
                       end) = false /\ x' = p)
          by (destruct st as [q|];
              [destruct (in_quotes (Some q)); [discriminate|]|];
              split; congruence)
    end.
    destruct Hst as [Hst ->]. clear H.
    pose proof H3 as H30.
    apply character_Some in H3. destruct H3 as (s' & Hn' & Hl' & Hc').
    unfold advance.
    destruct Ho as [->| ->];
      [change (delta_of (closing_of "(")) with (-1);
       change (delta_of "(") with 1 in *
      |change (delta_of (closing_of ")")) with 1;
       change (delta_of ")") with (-1) in *]; simpl in *.
    + (* forward, undone backward *)
      assert (Hcol : column x + 1 = strlen s) by lia.
      unfold setColumn, setPosition; simpl.
      rewrite character_neg_column by lia.
      replace (line x + 1 + -1) with (line x) by lia.
      rewrite (lineLength_nth _ _ _ Hl Hn).
      replace {| line := line x; column := strlen s - 1 |} with x
        by (destruct x; simpl in *; f_equal; lia).
      rewrite Hx0. destruct st as [q|]; [rewrite Hst|]; reflexivity.
    + (* backward, undone forward *)
      assert (Hcol : column x = 0) by lia.
      rewrite (lineLength_nth _ _ _ Hl' Hn') in *.
      unfold setColumn, setPosition; simpl.
      replace (strlen s' - 1 + 1) with (strlen s') by lia.
      rewrite (character_at_length _ _ _ Hl' Hn').
      replace {| line := line x + -1 + 1; column := 0 |} with x
        by (destruct x; simpl in *; f_equal; lia).
      rewrite Hx0. destruct st as [q|]; [rewrite Hst|]; reflexivity.
Qed.

Lemma loop_body_eq (document : Document) (o : ascii) (s : ScanState) :
  loop_body document o s
  = let '(lv, st, m) :=
      scan_char o (character document (position s)) (level s) (state s) in
    if m then Break (break_pos o (position s))
    else match advance document o (position s) st with
         | inl e => Raise e
         | inr p => Continue (mkScan p lv st)
         end.
Proof. reflexivity. Qed.

Lemma iter_body_snoc (n : nat) (document : Document) (o : ascii)
    (s s' : ScanState) :
  iter_body n document o s = Continue s' ->
  iter_body (S n) document o s = loop_body document o s'.
Proof.
  revert s. induction n as [|n IH]; intros s H.
  - simpl in H. injection H as ->. simpl.
    destruct (loop_body document o s'); reflexivity.
  - change (iter_body (S n) document o s)
      with (match loop_body document o s with
            | Continue s1 => iter_body n document o s1
            | r => r
            end) in H.
    change (iter_body (S (S n)) document o s)
      with (match loop_body document o s with
            | Continue s1 => iter_body (S n) document o s1
            | r => r
            end).
    destruct (loop_body document o s); try discriminate.
    apply IH. exact H.
Qed.

Lemma scan_loop_iter (n fuel : nat) (document : Document) (o : ascii)
    (s s' : ScanState) :
  iter_body n document o s = Continue s' ->
  scan_loop (n + fuel) document o s = scan_loop fuel document o s'.
Proof.
  revert s. induction n as [|n IH]; intros s H.
  - simpl in H. injection H as ->. reflexivity.
  - simpl in *. destruct (loop_body document o s); try discriminate.
    apply IH. exact H.
Qed.

Lemma scan_char_matched (o : ascii) (ch : option ascii) (lv lv' : Z)
    (st st' : option ascii) :
  state_ok st ->
  scan_char o ch lv st = (lv', st', true) ->
  ch = Some (closing_of o) /\ lv' = 0 /\ st' = None /\ st = None.
Proof.
  intros Hst H. unfold scan_char in H.
  destruct (in_quotes st) eqn:Hq.
  - destruct (match ch with Some _ => _ | None => _ end); discriminate.
  - assert (st = None) as -> by (destruct Hst as [->|Hst]; congruence).
    destruct (is_char ch o); [discriminate|].
    destruct (is_char ch (closing_of o)) eqn:Hc.
    + injection H as <- <- H. apply Z.eqb_eq in H.
      destruct ch as [c|]; [|discriminate]. simpl in Hc.
      apply Ascii.eqb_eq in Hc. subst. auto.
    + destruct (in_quotes ch); discriminate.
Qed.

Lemma scan_char_level (o : ascii) (ch : option ascii) (lv lv' : Z)
    (st st' : option ascii) :
  1 <= lv ->
  scan_char o ch lv st = (lv', st', false) ->
  1 <= lv'.
Proof.
  intros Hlv H. unfold scan_char in H.
  destruct (in_quotes st).
  - destruct (match ch with Some _ => _ | None => _ end);
      injection H as <- <-; lia.
  - destruct (is_char ch o); [injection H as <- <-; lia|].
    destruct (is_char ch (closing_of o)).
    + injection H as <- <- H. apply Z.eqb_neq in H. lia.
    + destruct (in_quotes ch); injection H as <- <-; lia.
Qed.

(** One turn of the loop in the other direction leads back. *)
Lemma step_back (document : Document) (o : ascii) (x x1 : Cursor)
    (lv' lv'' : Z) (st' st'' : option ascii) (b : bool) :
  is_paren o -> on_char document x -> state_ok st' -> 1 <= lv' ->
  advance document o x st' = inr x1 ->
  scan_char o (character document x1) lv' st' = (lv'', st'', b) ->
  loop_body document (closing_of o) (mkScan x1 lv'' st'')
  = Continue (mkScan x lv' st').
Proof.
  intros Ho Hon Hst Hlv Ha Hsc.
  destruct (scan_char_reverse _ _ _ _ _ _ _ Ho Hst Hsc) as [_ Hrev].
  rewrite loop_body_eq. simpl. rewrite Hrev.
  replace (lv' =? 0) with false by (symmetry; apply Z.eqb_neq; lia).
  rewrite andb_false_r.
  rewrite (advance_reverse _ _ _ _ _ Ho Hon Ha). reflexivity.
Qed.

(** A scan that finds its match at [q] can be walked back: the scan of the
    other direction, started at [q], comes to stand where this one stood,
    with the level and state this one left the character with. *)
Lemma walk_back (document : Document) (o : ascii) (fuel : nat) :
  is_paren o ->
  forall (s : ScanState) (r : Cursor),
    scan_loop fuel document o s = Some (inr r) ->
    on_char document (position s) -> state_ok (state s) -> 1 <= level s ->
    exists (q : Cursor) (m : nat) (lv' : Z) (st' : option ascii) (b : bool),
      r = break_pos o q
      /\ character document q = Some (closing_of o)
      /\ scan_char o (character document (position s)) (level s) (state s)
         = (lv', st', b)
      /\ iter_body m document (closing_of o) (mkScan q 0 None)
         = Continue (mkScan (position s) lv' st').
Proof.
  intros Ho. induction fuel as [|fuel IH]; intros s r H Hon Hst Hlv.
  - discriminate.
  - rewrite scan_loop_S, loop_body_eq in H.
    destruct (scan_char o (character document (position s)) (level s)
                (state s)) as [[lv' st'] b] eqn:Hsc.
    destruct b.
    + (* the match is here *)
      injection H as <-.
      destruct (scan_char_matched _ _ _ _ _ _ Hst Hsc) as (Hch & -> & -> & _).
      exists (position s), O, 0, None, true.
      repeat split; auto.
    + destruct (advance document o (position s) st') as [e|x1] eqn:Ha;
        [discriminate|].
      pose proof (scan_char_level _ _ _ _ _ _ Hlv Hsc) as Hlv'.
      destruct (scan_char_reverse _ _ _ _ _ _ _ Ho Hst Hsc) as [Hst' _].
      destruct (IH (mkScan x1 lv' st') r H) as (q & m & lv'' & st'' & b1
                                               & Hr & Hq & Hsc1 & Hit);
        simpl; auto.
      { eapply advance_on_char; eauto. }
      simpl in Hsc1.
      exists q, (S m), lv', st', false. repeat split; auto.
      rewrite (iter_body_snoc _ _ _ _ _ Hit).
      eapply step_back; eauto.
Qed.

(** The two directions of the matcher are inverse to each other, up to the
    column the forward scan adds: if the scan from a delimiter at [p] ends
    with a match at [q], the scan of the other direction from [q] ends with
    its match at [p]. *)
Theorem matching_inverse (document : Document) (o : ascii) (p r : Cursor) :
  is_paren o ->
  character document p = Some o ->
  matchingParenthesisPosition document p o = inr r ->
  exists q,
    r = break_pos o q
    /\ character document q = Some (closing_of o)
    /\ matchingParenthesisPosition document q (closing_of o)
       = inr (break_pos (closing_of o) p).
Proof.
  intros Ho Hp H. apply scan_loop_of_matching in H.
  unfold scan_fuel in H. rewrite scan_loop_S, loop_body_eq in H.
  unfold scan_init in H. cbn [position level state] in H. rewrite Hp in H.
  assert (Hsc : scan_char o (Some o) 0 None = (1, None, false)).
  { unfold scan_char. simpl. rewrite Ascii.eqb_refl. reflexivity. }
  rewrite Hsc in H.
  destruct (advance document o p None) as [e|x1] eqn:Ha; [discriminate|].
  destruct (walk_back _ _ _ Ho _ _ H) as (q & m & lv'' & st'' & b1
                                          & Hr & Hq & Hsc1 & Hit); simpl.
  { eapply advance_on_char; eauto. }
  { left; reflexivity. }
  { lia. }
  cbn [position level state] in Hsc1, Hit.
  exists q. repeat split; auto.
  assert (Hback : loop_body document (closing_of o) (mkScan x1 lv'' st'')
                  = Continue (mkScan p 1 None)).
  { eapply step_back; eauto; try lia.
    - exists o; exact Hp.
    - left; reflexivity. }
  pose proof (iter_body_snoc _ _ _ _ _ Hit) as Hit'. rewrite Hback in Hit'.
  apply (matching_of_scan_loop _ _ _ (S m + 1)).
  unfold scan_init. rewrite (scan_loop_iter _ _ _ _ _ _ Hit').
  rewrite scan_loop_S, loop_body_eq. simpl. rewrite Hp.
  assert (Hsc' : scan_char (closing_of o) (Some o) 1 None = (0, None, true)).
  { destruct Ho as [->| ->]; reflexivity. }
  rewrite Hsc'. reflexivity.
Qed.

(* ===================================================================== *)
(** * 13. The delimiter matcher on a balanced, unquoted pair *)
(* ===================================================================== *)

Lemma reads_app (document : Document) (u v : list ascii) (x y : Cursor) :
  reads document x (u ++ v) y ->
  exists z, reads document x u z /\ reads document z v y.
Proof.
  revert x. induction u as [|c u IH]; intros x H; simpl in *.
  - exists x. auto.
  - destruct H as (Hc & x' & Ha & Hr).
    destruct (IH _ Hr) as (z & Hu & Hv). exists z. eauto.
Qed.

Lemma iter_body_add (a b : nat) (document : Document) (o : ascii)
    (s s' : ScanState) :
  iter_body a document o s = Continue s' ->
  iter_body (a + b) document o s = iter_body b document o s'.
Proof.
  revert s. induction a as [|a IH]; intros s H.
  - simpl in H. injection H as ->. reflexivity.
  - simpl in *. destruct (loop_body document o s); try discriminate.
    apply IH. exact H.
Qed.

Lemma scan_char_plain (c : ascii) (lv : Z) :
  plain c -> scan_char "(" (Some c) lv None = (lv, None, false).
Proof.
  intros (H1 & H2 & H3). unfold scan_char.
  change (closing_of "(") with ")"%char. simpl.
  destruct (Ascii.eqb_spec c "("); [contradiction|].
  destruct (Ascii.eqb_spec c ")"); [contradiction|].
  simpl in H3. rewrite H3. reflexivity.
Qed.

(** The forward scan crosses a balanced text at the level it met it. *)
Lemma scan_balanced (document : Document) (w : list ascii) :
  Balanced w ->
  forall (x y : Cursor) (lv : Z),
    1 <= lv -> reads document x w y ->
    iter_body (List.length w) document "(" (mkScan x lv None)
    = Continue (mkScan y lv None).
Proof.
  induction 1 as [|c w Hc Hw IHw|u w Hu IHu Hw IHw]; intros x y lv Hlv Hr.
  - simpl in *. subst. reflexivity.
  - simpl in Hr. destruct Hr as (Hx & x' & Ha & Hr).
    change (List.length (c :: w)) with (S (List.length w)).
    cbn [iter_body]. rewrite loop_body_eq. cbn [position level state].
    rewrite Hx, (scan_char_plain _ _ Hc), Ha. apply IHw; auto.
  - simpl in Hr. destruct Hr as (Hx & x1 & Ha & Hr).
    apply reads_app in Hr. destruct Hr as (z & Hru & Hrw).
    simpl in Hrw. destruct Hrw as (Hz & z' & Haz & Hrw).
    replace (List.length (("("%char :: u) ++ ")"%char :: w))
      with (S (List.length u + S (List.length w)))
      by (simpl; rewrite length_app; simpl; lia).
    cbn [iter_body]. rewrite loop_body_eq. cbn [position level state].
    rewrite Hx. change (scan_char "(" (Some "("%char) lv None)
      with (lv + 1, @None ascii, false).
    cbn iota. rewrite Ha.
    rewrite (iter_body_add _ _ _ _ _ _ (IHu x1 z (lv + 1) ltac:(lia) Hru)).
    cbn [iter_body]. rewrite loop_body_eq. cbn [position level state].
    rewrite Hz. change (scan_char "(" (Some ")"%char) (lv + 1) None)
      with (lv + 1 - 1, @None ascii, (lv + 1 - 1 =? 0)).
    replace (lv + 1 - 1 =? 0) with false
      by (symmetry; apply Z.eqb_neq; lia).
    cbn iota. rewrite Haz.
    replace (lv + 1 - 1) with lv by lia. apply IHw; auto.
Qed.

(** On a balanced, unquoted pair the forward scan from the opening
    parenthesis ends one column past the closing one. *)
Lemma forward_on_balanced_pair (document : Document) (p q : Cursor)
    (w : list ascii) :
  balanced_pair document p w q ->
  matchingParenthesisPosition document p "("
  = inr (setColumn q (column q + 1)).
Proof.
  intros (Hr & Hq & Hw). simpl in Hr. destruct Hr as (Hp & x1 & Ha & Hr).
  apply (matching_of_scan_loop _ _ _ (S (List.length w + 1))).
  unfold scan_init. rewrite scan_loop_S, loop_body_eq.
  cbn [position level state]. rewrite Hp.
  change (scan_char "(" (Some "("%char) 0 None) with (0 + 1, @None ascii, false).
  cbn iota. rewrite Ha.
  rewrite (scan_loop_iter _ _ _ _ _ _
             (scan_balanced _ _ Hw x1 q (0 + 1) ltac:(lia) Hr)).
  rewrite scan_loop_S, loop_body_eq. cbn [position level state].
  rewrite Hq. reflexivity.
Qed.

Lemma setColumn_succ_inj (a b : Cursor) :
  setColumn a (column a + 1) = setColumn b (column b + 1) -> a = b.
Proof.
  destruct a, b. unfold setColumn. simpl. intros H. injection H as -> H.
  f_equal. lia.
Qed.

(* ===================================================================== *)
(** * 14. Properties of the delimiter matcher *)
(* ===================================================================== *)


Lemma advance_eq (document : Document) (opening : ascii) (pos : Cursor)
    (st : option ascii) :
  advance document opening pos st
  = match character document
            (setColumn pos (column pos + delta_of opening)) with
    | Some _ => inr (setColumn pos (column pos + delta_of opening))
    | None =>
        match character document (wrap_target document opening pos) with
        | None => inl EndOfFileReached
        | Some _ =>
            match st with
            | Some q => if in_quotes st then inl (EndOfLineSearchingQuote q)
                        else inr (wrap_target document opening pos)
            | None => inr (wrap_target document opening pos)
            end
        end
    end.
Proof. reflexivity. Qed.

(** The loop raises only when there is no character at the next column:
    "end of file" when the cursor finds no character on the adjacent line
    either, and the quote error when it finds one and a quote is open.  The
    two reasons are different values. *)
Lemma loop_body_Raise (document : Document) (opening : ascii) (s : ScanState)
    (e : ParseError) :
  loop_body document opening s = Raise e ->
  character document
    (setColumn (position s) (column (position s) + delta_of opening)) = None
  /\ match e with
     | EndOfFileReached =>
         character document (wrap_target document opening (position s))
         = None
     | EndOfLineSearchingQuote q =>
         in_quotes (Some q) = true
         /\ on_char document (wrap_target document opening (position s))
     end.
Proof.
  rewrite loop_body_eq.
  destruct (scan_char opening (character document (position s)) (level s)
              (state s)) as [[lv st] m].
  destruct m; [discriminate|].
  destruct (advance document opening (position s) st) as [e'|p] eqn:Ha;
    [|discriminate].
  intros H. injection H as ->. rewrite advance_eq in Ha.
  destruct (character document
              (setColumn (position s)
                 (column (position s) + delta_of opening)));
    [discriminate|]. split; [reflexivity|].
  destruct (character document
              (wrap_target document opening (position s))) as [c|] eqn:Hw.
  - destruct st as [q|]; [|discriminate].
    destruct (in_quotes (Some q)) eqn:Hq; [|discriminate].
    injection Ha as <-. split; [exact Hq|]. exists c. exact Hw.
  - injection Ha as <-. reflexivity.
Qed.

(** C3 (the code at the failing input): an empty line inside the
    parentheses makes the scan raise "end of file reached" in either
    direction, although the line after it exists and no quote is open;
    without the empty line the match is found. *)
Theorem empty_line_raises_end_of_file :
  matchingParenthesisPosition call_over_empty_line (mkCursor 0 1) "("
  = inl EndOfFileReached
  /\ matchingParenthesisPosition call_over_empty_line (mkCursor 2 1) ")"
     = inl EndOfFileReached
  /\ plainLine call_over_empty_line 2 = Some "x)"
  /\ plainLine call_over_empty_line 0 = Some "f("
  /\ iter_body 1 call_over_empty_line "(" (scan_init (mkCursor 0 1))
     = Raise EndOfFileReached
  /\ matchingParenthesisPosition ["f("; "x)"] (mkCursor 0 1) "("
     = inr (mkCursor 1 2)
  /\ matchingParenthesisPosition ["f("; "x)"] (mkCursor 1 1) ")"
     = inr (mkCursor 0 1).
Proof. repeat split; vm_compute; reflexivity. Qed.

(** On a balanced, unquoted pair the two scans answer each other. *)
Lemma balanced_pair_matches (document : Document) (p q : Cursor)
    (w : list ascii) :
  balanced_pair document p w q ->
  matchingParenthesisPosition document p "("
  = inr (setColumn q (column q + 1))
  /\ matchingParenthesisPosition document q ")" = inr p.
Proof.
  intros Hbp. pose proof (forward_on_balanced_pair _ _ _ _ Hbp) as Hf.
  split; [exact Hf|].
  destruct Hbp as (Hr & Hq & Hw). simpl in Hr. destruct Hr as (Hp & _).
  destruct (matching_inverse document "(" p _ (or_introl eq_refl) Hp Hf)
    as (q' & Hq' & _ & Hb).
  change (break_pos "(" q') with (setColumn q' (column q' + 1)) in Hq'.
  apply setColumn_succ_inj in Hq'. subst q'. exact Hb.
Qed.

Lemma get_list_ascii (s : string) (n : nat) :
  String.get n s = nth_error (list_ascii_of_string s) n.
Proof.
  revert n. induction s as [|a s IH]; intros [|n]; simpl; auto.
Qed.

Lemma character_on_line (document : Document) (l : Z) (s : string) (n : nat)
    (c : ascii) :
  0 <= l -> nth_error document (Z.to_nat l) = Some s ->
  nth_error (list_ascii_of_string s) n = Some c ->
  character document (mkCursor l (Z.of_nat n)) = Some c.
Proof.
  intros Hl Hs Hn. unfold character, plainLine. cbn [line column].
  destruct (Z.ltb_spec l 0); [lia|]. rewrite Hs.
  destruct (Z.ltb_spec (Z.of_nat n) 0); [lia|].
  rewrite Nat2Z.id, get_list_ascii. exact Hn.
Qed.

Lemma nth_error_middle {A} (pre post : list A) (a : A) :
  nth_error (pre ++ a :: post) (List.length pre) = Some a.
Proof. induction pre as [|b pre IH]; simpl; auto. Qed.

(** Inside one line the walk reads the characters of the line. *)
Lemma reads_on_line (document : Document) (l : Z) (s : string) :
  0 <= l -> nth_error document (Z.to_nat l) = Some s ->
  forall (w pre : list ascii) (c : ascii) (post : list ascii),
    list_ascii_of_string s = pre ++ w ++ c :: post ->
    reads document (mkCursor l (Z.of_nat (List.length pre))) w
      (mkCursor l (Z.of_nat (List.length pre + List.length w))).
Proof.
  intros Hl Hs. induction w as [|a w IH]; intros pre c post H.
  - simpl. rewrite Nat.add_0_r. reflexivity.
  - simpl. split.
    + apply (character_on_line _ _ s); auto.
      rewrite H. apply nth_error_middle.
    + exists (mkCursor l (Z.of_nat (List.length (pre ++ [a])))). split.
      * rewrite advance_eq. change (delta_of "(") with 1.
        unfold setColumn. simpl.
        replace (Z.of_nat (List.length pre) + 1)
          with (Z.of_nat (List.length (pre ++ [a])))
          by (rewrite length_app; simpl; lia).
        assert (Hnext : exists d,
                   nth_error (list_ascii_of_string s)
                     (List.length (pre ++ [a])) = Some d).
        { rewrite H.
          replace (pre ++ (a :: w) ++ c :: post)
            with ((pre ++ [a]) ++ w ++ c :: post)
            by (rewrite <- app_assoc; reflexivity).
          destruct w as [|d w]; simpl; eexists; apply nth_error_middle. }
        destruct Hnext as [d Hd].
        rewrite (character_on_line _ _ _ _ _ Hl Hs Hd). reflexivity.
      * replace (List.length pre + S (List.length w))%nat
          with (List.length (pre ++ [a]) + List.length w)%nat
          by (rewrite length_app; simpl; lia).
        apply (IH (pre ++ [a]) c post).
        rewrite H, <- app_assoc. reflexivity.
Qed.

(** A line that has, after [pre], an opening parenthesis, the balanced
    unquoted text [w] and a closing parenthesis holds a balanced pair: the
    forward scan from the first returns the column after the second, the
    backward scan from the second returns the first. *)
Lemma matching_on_line (document : Document) (l : Z) (s : string)
    (pre w post : list ascii) :
  0 <= l -> nth_error document (Z.to_nat l) = Some s ->
  list_ascii_of_string s = pre ++ "("%char :: w ++ ")"%char :: post ->
  Balanced w ->
  matchingParenthesisPosition document
    (mkCursor l (Z.of_nat (List.length pre))) "("
  = inr (mkCursor l (Z.of_nat (List.length pre + List.length w + 2)))
  /\ matchingParenthesisPosition document
       (mkCursor l (Z.of_nat (List.length pre + List.length w + 1))) ")"
     = inr (mkCursor l (Z.of_nat (List.length pre))).
Proof.
  intros Hl Hs H Hw.
  assert (Hbp : balanced_pair document
                  (mkCursor l (Z.of_nat (List.length pre))) w
                  (mkCursor l
                     (Z.of_nat (List.length pre + List.length w + 1)))).
  { split; [|split; [|exact Hw]].
    - replace (List.length pre + List.length w + 1)%nat
        with (List.length pre + List.length ("("%char :: w))%nat
        by (simpl; lia).
      apply (reads_on_line _ _ s Hl Hs ("("%char :: w) pre ")"%char post).
      exact H.
    - apply (character_on_line _ _ s); auto. rewrite H.
      replace (pre ++ "("%char :: w ++ ")"%char :: post)
        with ((pre ++ "("%char :: w) ++ ")"%char :: post)
        by (rewrite <- app_assoc; reflexivity).
      replace (List.length pre + List.length w + 1)%nat
        with (List.length (pre ++ "("%char :: w))
        by (rewrite length_app; simpl; lia).
      apply nth_error_middle. }
  destruct (balanced_pair_matches _ _ _ _ Hbp) as [Hf Hb].
  split; [|exact Hb]. rewrite Hf. unfold setColumn. simpl.
  f_equal. f_equal. lia.
Qed.

Lemma length_list_ascii (s : string) :
  List.length (list_ascii_of_string s) = String.length s.
Proof. induction s as [|a s IH]; simpl; [reflexivity|]. rewrite IH. reflexivity. Qed.

Lemma flat_nth (document : Document) :
  forall (n k : nat) (s : string),
    nth_error document n = Some s ->
    (k < String.length s)%nat ->
    nth_error (flat document)
      (list_sum (map String.length (firstn n document)) + k)
    = String.get k s.
Proof.
  unfold flat. induction document as [|s0 document IH]; intros n k s Hn Hk.
  - destruct n; discriminate.
  - destruct n as [|n]; simpl in *.
    + injection Hn as ->. rewrite nth_error_app1
        by (rewrite length_list_ascii; exact Hk).
      symmetry. apply get_list_ascii.
    + rewrite nth_error_app2 by (rewrite length_list_ascii; lia).
      rewrite length_list_ascii.
      replace (String.length s0
               + list_sum (map String.length (firstn n document)) + k
               - String.length s0)%nat
        with (list_sum (map String.length (firstn n document)) + k)%nat
        by lia.
      apply IH; assumption.
Qed.

Lemma character_flat (document : Document) (x : Cursor) (c : ascii) :
  character document x = Some c ->
  nth_error (flat document) (Z.to_nat (offset document x)) = Some c.
Proof.
  intros H. pose proof (character_Some _ _ _ H) as (s & Hn & Hl & Hc).
  unfold strlen in Hc. unfold offset.
  replace (Z.to_nat
             (Z.of_nat (list_sum (map String.length
                                    (firstn (Z.to_nat (line x)) document)))
              + column x))
    with (list_sum (map String.length (firstn (Z.to_nat (line x)) document))
          + Z.to_nat (column x))%nat by lia.
  rewrite (flat_nth _ _ _ _ Hn) by lia.
  unfold character, plainLine in H.
  destruct (Z.ltb_spec (line x) 0); [lia|]. rewrite Hn in H.
  destruct (Z.ltb_spec (column x) 0); [lia|]. exact H.
Qed.

Lemma prefix_mono (document : Document) (n m : nat) :
  (n <= m)%nat ->
  (list_sum (map String.length (firstn n document))
   <= list_sum (map String.length (firstn m document)))%nat.
Proof.
  revert n m. induction document as [|s document IH]; intros n m H.
  - rewrite !firstn_nil. lia.
  - destruct n as [|n]; [simpl; lia|]. destruct m as [|m]; [lia|].
    simpl. specialize (IH n m). lia.
Qed.

Lemma before_offset (document : Document) (x q : Cursor) :
  on_char document x -> on_char document q -> cursor_before x q ->
  offset document x < offset document q.
Proof.
  intros [c Hc] [d Hd] H.
  apply character_Some in Hc. destruct Hc as (s & Hn & Hl & Hc).
  apply character_Some in Hd. destruct Hd as (s' & Hn' & Hl' & Hc').
  unfold offset, strlen in *. destruct H as [H|[H1 H2]].
  - pose proof (prefix_S _ _ _ Hn) as HS.
    pose proof (prefix_mono document (S (Z.to_nat (line x)))
                  (Z.to_nat (line q))) as Hm.
    lia.
  - rewrite H1. lia.
Qed.

Lemma skipn_nth {A} (l : list A) (n : nat) (a : A) :
  nth_error l n = Some a -> skipn n l = a :: skipn (S n) l.
Proof.
  revert n. induction l as [|b l IH]; intros [|n] H; simpl in *;
    try discriminate.
  - injection H as ->. reflexivity.
  - apply IH. exact H.
Qed.

(** Before the closing parenthesis, with no empty line on the way, the
    scan finds a next character. *)
Lemma advance_towards (document : Document) (x q : Cursor) :
  on_char document x -> on_char document q -> cursor_before x q ->
  (forall l, line x <= l <= line q -> lineLength document l <> 0) ->
  exists x',
    advance document "(" x None = inr x'
    /\ (x' = q \/ cursor_before x' q)
    /\ line x <= line x'.
Proof.
  intros [c Hc] [d Hd] Hlt Hfull.
  pose proof (character_Some _ _ _ Hc) as (s & Hn & Hl & Hcol).
  pose proof (character_Some _ _ _ Hd) as (s' & Hn' & Hl' & Hcol').
  unfold advance. change (delta_of "(") with 1.
  destruct (character document (setColumn x (column x + 1))) as [c1|] eqn:H1.
  - exists (setColumn x (column x + 1)). split; [reflexivity|].
    split; [|simpl; lia].
    destruct Hlt as [Hlt|[Hl1 Hl2]].
    + right. left. simpl. exact Hlt.
    + destruct (Z.eq_dec (column x + 1) (column q)) as [E|E].
      * left. destruct x as [lx cx], q as [lq cq]. simpl in *.
        unfold setColumn. simpl. congruence.
      * right. right. simpl. lia.
  - assert (Hend : strlen s <= column x + 1).
    { destruct (character_None document (setColumn x (column x + 1)) s H1
                  Hl Hn) as [H|H]; simpl in H; lia. }
    assert (Hline : line x < line q).
    { destruct Hlt as [Hlt|[Hl1 Hl2]]; [exact Hlt|].
      rewrite Hl1 in Hn. rewrite Hn in Hn'. injection Hn' as ->. lia. }
    simpl.
    assert (Hnext : exists s1, nth_error document (Z.to_nat (line x + 1))
                               = Some s1).
    { destruct (nth_error document (Z.to_nat (line x + 1))) as [s1|] eqn:E;
        [eauto|].
      apply nth_error_None in E.
      assert (Z.to_nat (line q) < List.length document)%nat
        by (apply nth_error_Some; congruence).
      lia. }
    destruct Hnext as [s1 Hs1].
    assert (Hlen : lineLength document (line x + 1) <> 0)
      by (apply Hfull; lia).
    unfold lineLength, plainLine in Hlen.
    destruct (Z.ltb_spec (line x + 1) 0); [lia|]. rewrite Hs1 in Hlen.
    assert (Hc0 : exists c0, character document (setPosition (line x + 1) 0)
                             = Some c0).
    { unfold character, plainLine. simpl.
      destruct (Z.ltb_spec (line x + 1) 0); [lia|]. rewrite Hs1.
      apply get_lt_Some. lia. }
    destruct Hc0 as [c0 Hc0]. rewrite Hc0.
    exists (setPosition (line x + 1) 0). split; [reflexivity|].
    split; [|simpl; lia].
    destruct (Z.eq_dec (line x + 1) (line q)) as [E|E].
    + destruct (Z.eq_dec (column q) 0) as [E0|E0].
      * left. destruct q as [lq cq]. simpl in *. unfold setPosition.
        congruence.
      * right. right. simpl. lia.
    + right. left. simpl. lia.
Qed.

Lemma reads_towards (document : Document) (q : Cursor) (n : nat) :
  on_char document q ->
  forall x : Cursor,
    on_char document x ->
    (x = q \/ cursor_before x q) ->
    (forall l, line x <= l <= line q -> lineLength document l <> 0) ->
    n = Z.to_nat (offset document q - offset document x) ->
    reads document x
      (firstn n (skipn (Z.to_nat (offset document x)) (flat document))) q.
Proof.
  intros Hq. induction n as [|n IH]; intros x Hx Hrel Hfull Hn.
  - simpl. destruct Hrel as [->|Hlt]; [reflexivity|].
    pose proof (before_offset _ _ _ Hx Hq Hlt). lia.
  - destruct Hrel as [->|Hlt]; [lia|].
    destruct (advance_towards _ _ _ Hx Hq Hlt Hfull)
      as (x' & Hadv & Hrel' & Hline).
    pose proof (advance_offset _ _ _ _ _ Hx Hadv) as Hoff.
    change (delta_of "(") with 1 in Hoff.
    pose proof (offset_bounds _ _ Hx) as Hb.
    destruct Hx as [c Hc].
    rewrite (skipn_nth _ _ _ (character_flat _ _ _ Hc)).
    cbn [firstn reads]. split; [exact Hc|].
    exists x'. split; [exact Hadv|].
    replace (S (Z.to_nat (offset document x)))
      with (Z.to_nat (offset document x')) by lia.
    apply IH.
    + apply (advance_on_char _ _ _ _ _ Hadv).
    + exact Hrel'.
    + intros l Hl. apply Hfull. lia.
    + lia.
Qed.

Lemma encloses_balanced_pair (document : Document) (p q : Cursor) :
  encloses_balanced document p q ->
  balanced_pair document p (enclosed document p q) q.
Proof.
  intros (Hp & Hq & Hlt & Hfull & Hbal).
  assert (Hop : on_char document p) by (eexists; exact Hp).
  assert (Hoq : on_char document q) by (eexists; exact Hq).
  split; [|split; assumption].
  pose proof (before_offset _ _ _ Hop Hoq Hlt) as Hoff.
  pose proof (offset_bounds _ _ Hop) as Hb.
  pose proof (reads_towards document q _ Hoq p Hop (or_intror Hlt) Hfull
                eq_refl) as H.
  replace (Z.to_nat (offset document q - offset document p))
    with (S (Z.to_nat (offset document q - offset document p - 1)))
    in H by lia.
  rewrite (skipn_nth _ _ _ (character_flat _ _ _ Hp)) in H.
  cbn [firstn] in H. unfold enclosed.
  replace (Z.to_nat (offset document p + 1))
    with (S (Z.to_nat (offset document p))) by lia.
  exact H.
Qed.

(** C9 (as amended): on a buffer with a balanced, unquoted pair of
    parentheses and no empty line from the line of the opening one to the
    line of the closing one, the forward scan from the opening parenthesis
    returns the cursor one column past the closing parenthesis, and the
    backward scan from the closing parenthesis returns the cursor of the
    opening one. *)
Theorem matcher_directions_inverse (document : Document) (p q : Cursor) :
  encloses_balanced document p q ->
  matchingParenthesisPosition document p "("
  = inr (setColumn q (column q + 1))
  /\ matchingParenthesisPosition document q ")" = inr p.
Proof.
  intros H.
  apply (balanced_pair_matches _ _ _ _ (encloses_balanced_pair _ _ _ H)).
Qed.

Lemma matcher_directions_inverse_witness :
  encloses_balanced ["f(a,"; "g(b))"] (mkCursor 0 1) (mkCursor 1 4)
  /\ matchingParenthesisPosition ["f(a,"; "g(b))"] (mkCursor 0 1) "("
     = inr (mkCursor 1 5)
  /\ matchingParenthesisPosition ["f(a,"; "g(b))"] (mkCursor 1 4) ")"
     = inr (mkCursor 0 1).
Proof.
  assert (H : encloses_balanced ["f(a,"; "g(b))"] (mkCursor 0 1)
                (mkCursor 1 4)).
  { split; [reflexivity|]. split; [reflexivity|].
    split; [left; simpl; lia|]. split.
    - intros l Hl. simpl in Hl.
      assert (Hc : l = 0 \/ l = 1) by lia.
      destruct Hc as [-> | ->]; vm_compute; discriminate.
    - apply Balanced_char; [repeat split; discriminate|].
      apply Balanced_char; [repeat split; discriminate|].
      apply Balanced_char; [repeat split; discriminate|].
      apply (Balanced_group ["b"%char] []).
      + apply Balanced_char; [repeat split; discriminate|].
        apply Balanced_nil.
      + apply Balanced_nil. }
  split; [exact H|].
  exact (matcher_directions_inverse _ _ _ H).
Defined.

(** C9 as it is stated fails: on [(())] the inner pair is balanced and the
    backward scan from its closing parenthesis returns the opening one, but
    the forward scan from the opening parenthesis does not return the cursor
    the backward scan started from. *)
Lemma matcher_inverse_counterexample :
  balanced_pair ["(())"] (mkCursor 0 1) [] (mkCursor 0 2)
  /\ encloses_balanced ["(())"] (mkCursor 0 1) (mkCursor 0 2)
  /\ ~ (matchingParenthesisPosition ["(())"] (mkCursor 0 1) "("
        = inr (mkCursor 0 2)
        /\ matchingParenthesisPosition ["(())"] (mkCursor 0 2) ")"
           = inr (mkCursor 0 1)).
Proof.
  split; [|split].
  - split; [|split].
    + simpl. split; [reflexivity|]. eexists. split; reflexivity.
    + reflexivity.
    + apply Balanced_nil.
  - split; [reflexivity|]. split; [reflexivity|].
    split; [right; simpl; lia|]. split.
    + intros l Hl. simpl in Hl. assert (l = 0) as -> by lia.
      vm_compute. discriminate.
    + apply Balanced_nil.
  - intros [H _]. vm_compute in H. discriminate.
Qed.

(** With an empty line between the two parentheses neither scan returns:
    the pair of [call_over_empty_line] is left out of the statement
    above. *)
Example empty_line_between_pair :
  matchingParenthesisPosition call_over_empty_line (mkCursor 0 1) "("
  = inl EndOfFileReached
  /\ matchingParenthesisPosition call_over_empty_line (mkCursor 2 1) ")"
     = inl EndOfFileReached.
Proof. split; vm_compute; reflexivity. Qed.

(* ===================================================================== *)
(** * 15. Properties of the cursor locator *)
(* ===================================================================== *)

(** C4: with the cursor at any column of the identifier [foo] of the line
    [xx foo(1, bar=2) yy] (columns 3 to 5, and column 6 just after it), the
    word range is the span of [foo], columns 3 to 6, and the argument range
    runs from the opening parenthesis at column 6 to column 16, one past the
    closing parenthesis at column 15; it is what the forward scan from the
    parenthesis that follows the word returns. *)
Theorem locator_on_identifier (c : Z) :
  3 <= c <= 6 ->
  wordAndArgumentAtCursorRanges foo_call (mkCursor 0 c)
  = Ok (mkRange (mkCursor 0 3) (mkCursor 0 6),
        Some (mkRange (mkCursor 0 6) (mkCursor 0 16)))
  /\ text foo_call (mkRange (mkCursor 0 3) (mkCursor 0 6)) = "foo"
  /\ text foo_call (mkRange (mkCursor 0 6) (mkCursor 0 16)) = "(1, bar=2)"
  /\ character foo_call (mkCursor 0 6) = Some "("%char
  /\ matchingParenthesisPosition foo_call (mkCursor 0 6) "("
     = inr (mkCursor 0 16).
Proof.
  intros Hc.
  assert (H : c = 3 \/ c = 4 \/ c = 5 \/ c = 6) by lia.
  destruct H as [->|[->|[->| ->]]]; repeat split; vm_compute; reflexivity.
Qed.

Lemma locator_on_identifier_witness :
  3 <= 4 <= 6
  /\ wordAndArgumentAtCursorRanges foo_call (mkCursor 0 4)
     = Ok (mkRange (mkCursor 0 3) (mkCursor 0 6),
           Some (mkRange (mkCursor 0 6) (mkCursor 0 16))).
Proof.
  split; [lia|]. apply (locator_on_identifier 4). lia.
Defined.

(** C5 (the code at the failing inputs): the second special case is tested
    after the first one has applied, with the cursor re-seated at the
    opening parenthesis but the text of the line the cursor came from.  With
    the cursor on the closing parenthesis of [two_line_call] the first case
    re-seats the cursor at line 0, column 3, and the test of the second case
    indexes the two characters of line 1 at column 2: IndexError.  On
    [f()(x)] with the cursor on the last parenthesis both cases apply, and
    the second replaces the argument range of the first.  The example of
    the claim holds: one column past the closing parenthesis of [foo() ]
    the ranges are those of the cursor at [f]. *)
Theorem second_special_case_after_first :
  wordAndArgumentAtCursorRanges two_line_call (mkCursor 1 1)
  = Err ExcIndexError
  /\ matchingParenthesisPosition two_line_call (mkCursor 1 1) ")"
     = inr (mkCursor 0 3)
  /\ py_index (doc_line two_line_call 1) (3 - 1) = Err ExcIndexError
  /\ wordAndArgumentAtCursorRanges ["f()(x)"] (mkCursor 0 5)
     = Ok (mkRange (mkCursor 0 0) (mkCursor 0 1),
           Some (mkRange (mkCursor 0 1) (mkCursor 0 3)))
  /\ closing_case ["f()(x)"] (mkCursor 0 5)
     = Ok (Some (mkRange (mkCursor 0 3) (mkCursor 0 6)), mkCursor 0 3)
  /\ wordAndArgumentAtCursorRanges ["foo() "] (mkCursor 0 5)
     = wordAndArgumentAtCursorRanges ["foo() "] (mkCursor 0 0)
  /\ wordAndArgumentAtCursorRanges ["foo() "] (mkCursor 0 0)
     = Ok (mkRange (mkCursor 0 0) (mkCursor 0 3),
           Some (mkRange (mkCursor 0 3) (mkCursor 0 5))).
Proof. repeat split; vm_compute; reflexivity. Qed.

(* ===================================================================== *)
(** * 16. Properties of the expansion registry *)
(* ===================================================================== *)

Lemma union_insert_taken (m1 m2 : gmap string Expansion) (i : string)
    (x : Expansion) :
  is_Some (m1 !! i) -> m1 ∪ <[i:=x]> m2 = m1 ∪ m2.
Proof.
  intros [e He]. apply map_eq. intros j.
  rewrite !lookup_union. destruct (decide (i = j)) as [->|Hne].
  - rewrite He. rewrite lookup_insert_eq.
    destruct (m2 !! j); reflexivity.
  - rewrite lookup_insert_ne by done. reflexivity.
Qed.

(** What [mergeExpansions] returns and logs. *)
Lemma mergeExpansions_spec (left_ right_ : gmap string Expansion) :
  (mergeExpansions left_ right_).1 = left_ ∪ right_
  /\ forall name path,
       LogIgnoreDuplicate name path ∈ (mergeExpansions left_ right_).2
       <-> exists f, right_ !! name = Some (f, path)
                     /\ is_Some (left_ !! name).
Proof.
  unfold mergeExpansions.
  apply (map_fold_weak_ind
           (fun (r : gmap string Expansion * list LogMsg)
                (m : gmap string Expansion) =>
              r.1 = left_ ∪ m
              /\ forall name path,
                   LogIgnoreDuplicate name path ∈ r.2
                   <-> exists f, m !! name = Some (f, path)
                                 /\ is_Some (left_ !! name))).
  - split.
    + simpl. rewrite (right_id_L ∅ (∪)). reflexivity.
    + intros name path. simpl. split.
      * intros H. apply elem_of_nil in H. contradiction.
      * intros (f & H & _). rewrite lookup_empty in H. discriminate.
  - intros i x m [result log] Hi [IH1 IH2]. simpl in IH1, IH2. subst result.
    unfold merge_step.
    assert (Hl : (left_ ∪ m) !! i = left_ !! i).
    { rewrite lookup_union, Hi. destruct (left_ !! i); reflexivity. }
    rewrite Hl. destruct (left_ !! i) as [first_|] eqn:Hli; simpl.
    + split.
      * rewrite insert_id by exact Hl.
        symmetry. apply union_insert_taken. eauto.
      * intros name path. rewrite elem_of_app, IH2. split.
        -- intros [(f & Hm & Hs)|Hin].
           ++ exists f. split; [|exact Hs].
              rewrite lookup_insert_ne; [exact Hm|]. congruence.
           ++ apply elem_of_cons in Hin. destruct Hin as [Heq|Hin].
              ** injection Heq as -> ->. exists x.1.
                 rewrite lookup_insert_eq. destruct x; simpl. eauto.
              ** apply elem_of_cons in Hin. destruct Hin as [Heq|Hin];
                   [discriminate|]. apply elem_of_nil in Hin. contradiction.
        -- intros (f & Hm & Hs).
           destruct (decide (i = name)) as [->|Hne].
           ++ rewrite lookup_insert_eq in Hm. injection Hm as ->.
              right. simpl. apply elem_of_cons. left. reflexivity.
           ++ rewrite lookup_insert_ne in Hm by done. left. eauto.
    + split.
      * apply insert_union_r. exact Hli.
      * intros name path. rewrite IH2. split.
        -- intros (f & Hm & Hs). exists f. split; [|exact Hs].
           rewrite lookup_insert_ne; [exact Hm|]. congruence.
        -- intros (f & Hm & Hs).
           destruct (decide (i = name)) as [->|Hne].
           ++ rewrite Hli in Hs. destruct Hs as [? ?]. discriminate.
           ++ rewrite lookup_insert_ne in Hm by done. eauto.
Qed.

Lemma lookup_union_first (m1 m2 : gmap string Expansion) (name : string) :
  (m1 ∪ m2) !! name
  = match m1 !! name with Some e => Some e | None => m2 !! name end.
Proof.
  rewrite lookup_union. destruct (m1 !! name), (m2 !! name); reflexivity.
Qed.

(** X21: what [mergeExpansions] keeps and what it logs: every entry of the
    left mapping stays, the right one gives the names the left one does not
    have, and a name is logged as a duplicate, with the path of the right
    entry, exactly when both mappings have it. *)
Theorem merge_keeps_first :
  (forall (left_ right_ : gmap string Expansion) (name : string),
      (mergeExpansions left_ right_).1 !! name
      = match left_ !! name with
        | Some e => Some e
        | None => right_ !! name
        end)
  /\ (forall (left_ right_ : gmap string Expansion) (name path : string),
         LogIgnoreDuplicate name path ∈ (mergeExpansions left_ right_).2
         <-> exists f, right_ !! name = Some (f, path)
                       /\ is_Some (left_ !! name)).
Proof.
  split.
  - intros left_ right_ name.
    rewrite (proj1 (mergeExpansions_spec left_ right_)).
    apply lookup_union_first.
  - intros left_ right_. apply mergeExpansions_spec.
Qed.

Lemma merge_keeps_first_witness :
  (mergeExpansions {["date" := (date_first, "p")]}
     {["date" := (date_second, "q")]}).1 !! "date" = Some (date_first, "p")
  /\ LogIgnoreDuplicate "date" "q"
     ∈ (mergeExpansions {["date" := (date_first, "p")]}
          {["date" := (date_second, "q")]}).2.
Proof.
  split.
  - rewrite (proj1 merge_keeps_first). vm_compute. reflexivity.
  - apply (proj2 merge_keeps_first). exists date_second.
    split; [vm_compute; reflexivity|]. exists (date_first, "p").
    vm_compute. reflexivity.
Defined.

(** In an interpreter that has loaded no expansion file, the entry of the
    first of two directories wins, and the one of the second is logged as
    a duplicate. *)
Example first_directory_wins_when_fresh :
  exists result log modules,
    getExpansionsFor_body two_directories "text/x-c++src" ∅
    = (Ok (result, log), modules)
    /\ result !! "date"
       = Some (date_first, "/usr/share/expand/text_x-c++src.expand")
    /\ LogIgnoreDuplicate "date" "/home/me/expand/text_x-c++src.expand"
       ∈ log.
Proof.
  eexists _, _, _. split; [vm_compute; reflexivity|]. split.
  - vm_compute. reflexivity.
  - apply list_elem_of_In. simpl. tauto.
Qed.

(** C6: the entry of the first-scanned directory does not always win.  With
    three search directories whose files for every type define [shout],
    [date] and [date], the first media type asked for gets the [date] of
    the second directory, the first one that defines it.  The next media
    type asked for gets the [date] of the third directory, registered with
    the path of the first: the file of the first directory is executed in
    the module object that the file of the third was executed in last, and
    [loadExpansionsFromFile] registers every function it finds there. *)
Theorem stale_function_beats_first_directory :
  exists (first_ second_ : gmap string Expansion) (i1 i2 : Interpreter),
    getExpansionsFor three_directories "text/plain" fresh = (Ok first_, i1)
    /\ getExpansionsFor three_directories "text/html" i1 = (Ok second_, i2)
    /\ first_ !! "date" = Some (date_first, "/d2/all.expand")
    /\ second_ !! "date" = Some (date_second, "/d1/all.expand")
    /\ load_source three_directories None "/d1/all.expand"
       = Loaded [("shout", ObjFunction shout)].
Proof.
  eexists _, _, _, _.
  split; [vm_compute; reflexivity|].
  split; [vm_compute; reflexivity|].
  split; [vm_compute; reflexivity|].
  split; vm_compute; reflexivity.
Qed.

(* ===================================================================== *)
(** * 17. Properties of the argument parsing *)
(* ===================================================================== *)

Lemma split_not_nil (sep : ascii) (s : string) : split sep s <> [].
Proof.
  destruct s as [|c rest]; simpl; [discriminate|].
  destruct (Ascii.eqb c sep); [discriminate|].
  destruct (split sep rest); discriminate.
Qed.

Lemma join_split (sep : ascii) (s : string) :
  join (String sep EmptyString) (split sep s) = s.
Proof.
  induction s as [|c rest IH]; simpl; [reflexivity|].
  destruct (Ascii.eqb_spec c sep) as [->|Hne].
  - pose proof (split_not_nil sep rest) as Hnil.
    destruct (split sep rest) as [|piece pieces]; [contradiction|].
    simpl in *. rewrite IH. reflexivity.
  - pose proof (split_not_nil sep rest) as Hnil.
    destruct (split sep rest) as [|piece pieces]; [contradiction|].
    destruct pieces as [|piece' pieces]; simpl in *; rewrite <- IH;
      reflexivity.
Qed.

Lemma split_no_sep (sep : ascii) (s : string) :
  Forall (fun piece => contains sep piece = false) (split sep s).
Proof.
  induction s as [|c rest IH]; simpl.
  - constructor; [reflexivity|constructor].
  - destruct (Ascii.eqb_spec c sep) as [->|Hne].
    + constructor; [reflexivity|exact IH].
    + destruct (split sep rest) as [|piece pieces].
      * constructor; [|constructor]. simpl.
        destruct (Ascii.eqb_spec c sep); [contradiction|reflexivity].
      * inversion IH; subst. constructor; [|assumption]. simpl.
        destruct (Ascii.eqb_spec c sep); [contradiction|assumption].
Qed.

Lemma split_length (sep : ascii) (s : string) :
  List.length (split sep s) = S (count_char sep s).
Proof.
  induction s as [|c rest IH]; simpl; [reflexivity|].
  destruct (Ascii.eqb c sep); simpl.
  - rewrite IH. reflexivity.
  - pose proof (split_not_nil sep rest) as Hnil.
    destruct (split sep rest) as [|piece pieces]; [contradiction|].
    simpl in *. exact IH.
Qed.

Lemma lstrip_no_sep (sep : ascii) (s : string) :
  contains sep s = false -> contains sep (lstrip s) = false.
Proof.
  induction s as [|c rest IH]; simpl; [auto|].
  intros H. apply orb_false_iff in H. destruct H as [H1 H2].
  destruct (is_space c); [auto|]. simpl. rewrite H1, H2. reflexivity.
Qed.

Lemma rstrip_no_sep (sep : ascii) (s : string) :
  contains sep s = false -> contains sep (rstrip s) = false.
Proof.
  induction s as [|c rest IH]; simpl; [auto|].
  intros H. apply orb_false_iff in H. destruct H as [H1 H2].
  specialize (IH H2).
  destruct (rstrip rest) as [|d r].
  - destruct (is_space c); [reflexivity|]. simpl. rewrite H1. reflexivity.
  - simpl in *. rewrite H1. exact IH.
Qed.

Lemma strip_no_sep (sep : ascii) (s : string) :
  contains sep s = false -> contains sep (strip s) = false.
Proof. intros H. apply rstrip_no_sep, lstrip_no_sep, H. Qed.

Lemma lstrip_no_leading (s : string) : no_leading_space (lstrip s).
Proof.
  induction s as [|c rest IH]; simpl; [exact I|].
  destruct (is_space c) eqn:E; [exact IH|]. simpl. exact E.
Qed.

Lemma lstrip_fixed (s : string) : no_leading_space s -> lstrip s = s.
Proof. destruct s as [|c rest]; simpl; [auto|]. intros ->. reflexivity. Qed.

Lemma rstrip_no_leading (s : string) :
  no_leading_space s -> no_leading_space (rstrip s).
Proof.
  destruct s as [|c rest]; simpl; [auto|]. intros H.
  destruct (rstrip rest); [rewrite H|]; simpl; exact H.
Qed.

Lemma rstrip_idempotent (s : string) : rstrip (rstrip s) = rstrip s.
Proof.
  induction s as [|c rest IH]; simpl; [reflexivity|].
  destruct (rstrip rest) as [|d r] eqn:E.
  - destruct (is_space c) eqn:Ec; simpl; [reflexivity|].
    rewrite Ec. reflexivity.
  - change (rstrip (String c (String d r)))
      with (match rstrip (String d r) with
            | EmptyString =>
                if is_space c then EmptyString else String c EmptyString
            | r0 => String c r0
            end).
    rewrite IH. reflexivity.
Qed.

Lemma strip_idempotent (s : string) : strip (strip s) = strip s.
Proof.
  unfold strip.
  rewrite (lstrip_fixed (rstrip (lstrip s)))
    by apply rstrip_no_leading, lstrip_no_leading.
  apply rstrip_idempotent.
Qed.

(** The items of line 278 are trimmed, not empty, and free of commas. *)
Lemma preArgs_of_items (t : string) :
  Forall (fun item => strip item = item /\ nonempty item = true
                      /\ contains "," item = false)
    (preArgs_of t).
Proof.
  unfold preArgs_of.
  pose proof (split_no_sep "," (slice_1_m1 t)) as H.
  induction H as [|piece pieces Hp Hps IH]; simpl; [constructor|].
  destruct (nonempty (strip piece)) eqn:E; simpl; [|exact IH].
  constructor; [|exact IH].
  split; [apply strip_idempotent|]. split; [exact E|].
  apply strip_no_sep, Hp.
Qed.

Lemma contains_count (c : ascii) (s : string) :
  contains c s = true <-> (1 <= count_char c s)%nat.
Proof.
  induction s as [|a s IH]; simpl.
  - split; [discriminate|lia].
  - destruct (Ascii.eqb a c); simpl; [split; [lia|reflexivity]|exact IH].
Qed.

Lemma split_strip_length (arg : string) :
  List.length (map strip (split "=" arg)) = S (count_char "=" arg).
Proof. rewrite length_map. apply split_length. Qed.

(** What one item does to the arguments collected so far. *)
Lemma classify_arguments_cons (arg : string) (rest arguments : list string)
    (namedArgs : gmap string string) :
  classify_arguments (arg :: rest) arguments namedArgs
  = if contains "=" arg then
      match map strip (split "=" arg) with
      | [key; value] =>
          classify_arguments rest arguments (<[key := value]> namedArgs)
      | _ => Err ExcValueError
      end
    else classify_arguments rest (arguments ++ [arg]) namedArgs.
Proof. reflexivity. Qed.

Lemma split_without_sep (sep : ascii) (s : string) :
  count_char sep s = 0%nat -> split sep s = [s].
Proof.
  induction s as [|c rest IH]; simpl; [reflexivity|].
  destruct (Ascii.eqb c sep); [discriminate|].
  intros H. rewrite (IH H). reflexivity.
Qed.

Lemma split_one_equals (arg : string) :
  count_char "=" arg = 1%nat ->
  split "=" arg = [before_equals arg; after_equals arg].
Proof.
  induction arg as [|c rest IH]; simpl; [discriminate|].
  destruct (Ascii.eqb c "=").
  - intros H. injection H as H. rewrite (split_without_sep _ _ H).
    reflexivity.
  - intros H. rewrite (IH H). reflexivity.
Qed.

(** What the loop of lines 281-286 returns, whatever the items. *)
Lemma classify_arguments_closed (preArgs : list string) :
  forall (arguments : list string) (namedArgs : gmap string string),
    classify_arguments preArgs arguments namedArgs
    = if existsb (fun arg => (2 <=? count_char "=" arg)%nat) preArgs
      then Err ExcValueError
      else Ok (arguments
               ++ List.filter (fun arg => (count_char "=" arg =? 0)%nat)
                    preArgs,
               keyword_arguments preArgs namedArgs).
Proof.
  unfold keyword_arguments.
  induction preArgs as [|arg rest IH]; intros arguments namedArgs.
  - simpl. rewrite app_nil_r. reflexivity.
  - rewrite classify_arguments_cons.
    pose proof (split_strip_length arg) as Hlen.
    pose proof (contains_count "=" arg) as Hcc.
    simpl existsb. simpl List.filter.
    destruct (count_char "=" arg) as [|[|n]] eqn:Hc.
    + destruct (contains "=" arg);
        [assert (1 <= 0)%nat by (apply Hcc; reflexivity); lia|].
      simpl. rewrite IH. destruct (existsb _ rest); [reflexivity|].
      rewrite <- app_assoc. reflexivity.
    + assert (Ec : contains "=" arg = true) by (apply Hcc; lia).
      rewrite Ec, (split_one_equals _ Hc). simpl. apply IH.
    + assert (Ec : contains "=" arg = true) by (apply Hcc; lia).
      rewrite Ec.
      destruct (map strip (split "=" arg)) as [|key [|value [|x l]]];
        simpl in Hlen; try lia; reflexivity.
Qed.

Lemma preArgs_of_filter (t : string) :
  preArgs_of t
  = List.filter (fun item => negb (String.eqb item EmptyString))
      (map strip (split "," (slice_1_m1 t))).
Proof.
  unfold preArgs_of.
  induction (split "," (slice_1_m1 t)) as [|piece pieces IH]; simpl;
    [reflexivity|].
  destruct (strip piece) eqn:E; simpl; [exact IH|].
  rewrite E, IH. reflexivity.
Qed.

(** C7: the text [(a, b=2, c = 3)] gives the positional arguments [a] and
    the keyword arguments [b] with the string [2] and [c] with the string
    [3], and the blank items of [( a ,, b=2 , )] are dropped.  In general
    the items are the trimmed pieces between the commas that are not
    empty, in their order.  Whatever the items, the ones without [=] are
    the positional arguments, in their order, and each one with a single
    [=] is a keyword argument, the trimmed text before the [=] being the
    key and the trimmed text after it the value; an item with a second [=]
    is taken for a keyword argument as well and fails to unpack. *)
Theorem argument_parsing :
  preArgs_of "(a, b=2, c = 3)" = ["a"; "b=2"; "c = 3"]
  /\ classify_arguments ["a"; "b=2"; "c = 3"] [] ∅
     = Ok (["a"], <["c" := "3"]> (<["b" := "2"]> ∅))
  /\ parse_arguments ["foo(a, b=2, c = 3)"]
       (Some (mkRange (mkCursor 0 3) (mkCursor 0 18)))
     = Ok (["a"], <["c" := "3"]> (<["b" := "2"]> ∅))
  /\ preArgs_of "( a ,, b=2 , )" = ["a"; "b=2"]
  /\ (forall t : string,
         preArgs_of t
         = List.filter (fun item => negb (String.eqb item EmptyString))
             (map strip (split "," (slice_1_m1 t)))
         /\ Forall (fun item => strip item = item /\ item <> EmptyString)
              (preArgs_of t))
  /\ (forall preArgs : list string,
         classify_arguments preArgs [] ∅
         = if existsb (fun arg => (2 <=? count_char "=" arg)%nat) preArgs
           then Err ExcValueError
           else Ok (List.filter (fun arg => (count_char "=" arg =? 0)%nat)
                      preArgs,
                    keyword_arguments preArgs ∅)).
Proof.
  split; [vm_compute; reflexivity|].
  split; [vm_compute; reflexivity|].
  split; [vm_compute; reflexivity|].
  split; [vm_compute; reflexivity|].
  split.
  - intros t. split; [apply preArgs_of_filter|].
    eapply Forall_impl; [apply preArgs_of_items|].
    simpl. intros item (H1 & H2 & _). split; [exact H1|].
    intros ->. discriminate.
  - intros preArgs. apply classify_arguments_closed.
Qed.

(** An item with two [=] does not unpack into a key and a value. *)
Example two_equal_signs :
  classify_arguments ["a=b=c"] [] ∅ = Err ExcValueError.
Proof. reflexivity. Qed.

Lemma argument_parsing_witness :
  classify_arguments ["x"; "k = v"; "a=b=c"] [] ∅ = Err ExcValueError
  /\ classify_arguments ["x"; "k = v"; "k=w"] [] ∅
     = Ok (["x"], <["k" := "w"]> (<["k" := "v"]> ∅)).
Proof.
  split.
  - rewrite (proj2 (proj2 (proj2 (proj2 (proj2 argument_parsing)))) _).
    reflexivity.
  - rewrite (proj2 (proj2 (proj2 (proj2 (proj2 argument_parsing)))) _).
    reflexivity.
Defined.

(** C8 as it is stated fails: the comma inside the nested call and the
    comma inside the string literal are split points like any other. *)
Lemma nested_comma_counterexample :
  preArgs_of "(g(1,2), x)" = ["g(1"; "2)"; "x"]
  /\ preArgs_of "(g(1,2), x)" <> ["g(1,2)"; "x"]
  /\ preArgs_of ("(" +:+ String dquote "a,b" +:+ String dquote ")")
     = [String dquote "a"; "b" +:+ String dquote EmptyString].
Proof.
  split; [vm_compute; reflexivity|].
  split; [vm_compute; discriminate|vm_compute; reflexivity].
Qed.

(** C8 (as amended): the inner text is split at every comma, nested or
    quoted or not: the pieces are one more than the commas, none of them has
    a comma, joined by commas they are the inner text again, and no item of
    the argument list has a comma. *)
Theorem split_at_every_comma (inner t : string) :
  List.length (split "," inner) = S (count_char "," inner)
  /\ Forall (fun piece => contains "," piece = false) (split "," inner)
  /\ join "," (split "," inner) = inner
  /\ preArgs_of t
     = map strip
         (List.filter (fun arg => nonempty (strip arg))
            (split "," (slice_1_m1 t)))
  /\ Forall (fun item => contains "," item = false) (preArgs_of t).
Proof.
  split; [apply split_length|].
  split; [apply split_no_sep|].
  split; [apply join_split|].
  split; [reflexivity|].
  eapply Forall_impl; [apply preArgs_of_items|].
  simpl. intros item (_ & _ & H). exact H.
Qed.

(* ===================================================================== *)
(** * 18. Properties of the pipeline *)
(* ===================================================================== *)

Lemma reported_popup (w : World) (title : string) (msg : PopupText)
    (icon : string) :
  reported w (popup w title msg icon).
Proof.
  split; [reflexivity|]. exists [], title, msg, icon.
  split; [reflexivity|constructor].
Qed.

Lemma untouched_refl (w : World) : untouched w w.
Proof.
  split; [reflexivity|]. exists []. rewrite app_nil_r.
  split; [reflexivity|constructor].
Qed.

Lemma reported_untouched (w w' : World) : reported w w' -> untouched w w'.
Proof.
  intros (Hb & pre & title & msg & icon & He & Hpre).
  split; [exact Hb|]. exists (pre ++ [EvPopup title msg icon]).
  split; [exact He|]. apply Forall_app. split; [exact Hpre|].
  constructor; [reflexivity|constructor].
Qed.

(** Rendering through a template does not touch the buffer; it ends with
    a popup when it aborts, and without one when it goes on. *)
Lemma render_with_template_spec (h : Host) (w w1 : World) (name : string)
    (replacement : PyValue) (r : Outcome + PyValue) :
  render_with_template h w name replacement = (w1, r) ->
  match r with
  | inl Aborted => reported w w1
  | inl Applied => False
  | inl (Uncaught _) => untouched w w1
  | inr _ =>
      buffer w1 = buffer w
      /\ exists pre,
           events w1 = events w ++ pre
           /\ Forall (fun e => is_buffer_event e = false
                               /\ is_popup e = false) pre
  end.
Proof.
  unfold render_with_template. intros H.
  destruct replacement as [s|data|repr];
    try (injection H as <- <-; apply untouched_refl).
  set (path := _JINJA_TEMPLATES_BASE_DIR +:+ "/" +:+ name) in *.
  assert (Hnotfound :
            reported w (popup (emit w (EvFindResource path)) "Error"
                          (MsgTemplateNotFound name) "dialog-error")).
  { split; [reflexivity|].
    exists [EvFindResource path], "Error", (MsgTemplateNotFound name),
      "dialog-error".
    split; [simpl; rewrite <- app_assoc; reflexivity|].
    constructor; [reflexivity|constructor]. }
  destruct (findApplicationResource h path) as [filename|].
  2: { injection H as <- <-. exact Hnotfound. }
  destruct filename as [|c filename].
  { injection H as <- <-. exact Hnotfound. }
  destruct (find _JINJA_TEMPLATES_BASE_DIR (String c filename))
    as [base_dir_pos|].
  2: { injection H as <- <-. split; [reflexivity|].
       exists [EvFindResource path]. split; [reflexivity|].
       constructor; [reflexivity|constructor]. }
  destruct (render h _ _ data) as [t|message].
  - injection H as <- <-. split; [reflexivity|].
    exists [EvFindResource path]. split; [reflexivity|].
    constructor; [split; reflexivity|constructor].
  - injection H as <- <-. split; [reflexivity|].
    exists [EvFindResource path], "Error", (MsgTemplateError name message),
      "dialog-error".
    split; [simpl; rewrite <- app_assoc; reflexivity|].
    constructor; [reflexivity|constructor].
Qed.

(** The edit is one undo scope around the removals and the insertion. *)
Lemma edit_scope (h : Host) (func : Function) (word_range : Range)
    (argument_range : option Range) (replacement : PyValue) (w w' : World)
    (o : Outcome) :
  makeAtomicUndo w
    (edit_block h func word_range argument_range replacement) = (w', o) ->
  (o = Applied \/ o = Uncaught ExcTypeError)
  /\ exists edits,
       events w' = events w ++ [EvStartEditing] ++ edits ++ [EvEndEditing]
       /\ Forall (fun e => is_edit e = true) edits.
Proof.
  unfold makeAtomicUndo, edit_block. intros H.
  assert (Ho : o = Applied \/ o = Uncaught ExcTypeError).
  { destruct replacement; try destruct (_ && _); simpl in H;
      injection H as _ <-; auto. }
  split; [exact Ho|].
  exists (edits_of h func word_range argument_range replacement).
  unfold edits_of. split.
  - destruct argument_range as [r|]; destruct replacement as [t|d|x];
      try destruct (_ && _); simpl in H; injection H as <- _;
      unfold emit, remove; simpl; rewrite <- ?app_assoc; reflexivity.
  - destruct argument_range as [r|]; destruct replacement as [t|d|x];
      try destruct (_ && _); repeat constructor.
Qed.

(** Every call either leaves the buffer alone, or edits it in one undo
    scope after all the steps that can fail. *)
Lemma expandAtCursor_cases (h : Host) (w w' : World) (o : Outcome) :
  expandAtCursor h w = (w', o) ->
  match o with
  | Aborted => reported w w'
  | Uncaught e =>
      untouched w w' \/ (e = ExcTypeError /\ edited_in_one_scope w w')
  | Applied => edited_in_one_scope w w'
  end.
Proof.
  unfold expandAtCursor. intros H.
  destruct (wordAndArgumentAtCursorRanges (buffer w) (cursorPosition h))
    as [[word_range argument_range]|e].
  2: { destruct e; injection H as <- <-;
         try (left; apply untouched_refl). apply reported_popup. }
  destruct (fst (getExpansionsFor (fs h) (mimeType h) (interpreter h)))
    as [expansions|e].
  2: { injection H as <- <-. left. apply untouched_refl. }
  destruct (expansions !! text (buffer w) word_range) as [[func path]|].
  2: { injection H as <- <-. apply reported_popup. }
  destruct (parse_arguments (buffer w) argument_range)
    as [[arguments namedArgs]|e].
  2: { injection H as <- <-. left. apply untouched_refl. }
  destruct (call func arguments namedArgs) as [replacement|s|s].
  2: { injection H as <- <-. apply reported_popup. }
  2: { injection H as <- <-. left. apply untouched_refl. }
  assert (Hedit :
            forall w1 rendered,
              buffer w1 = buffer w ->
              (exists pre,
                  events w1 = events w ++ pre
                  /\ Forall (fun e => is_buffer_event e = false
                                      /\ is_popup e = false) pre) ->
              makeAtomicUndo w1
                (edit_block h func word_range argument_range rendered)
              = (w', o) ->
              match o with
              | Aborted => reported w w'
              | Uncaught e =>
                  untouched w w'
                  \/ (e = ExcTypeError /\ edited_in_one_scope w w')
              | Applied => edited_in_one_scope w w'
              end).
  { intros w1 rendered Hb (pre & He & Hpre) Hm.
    apply edit_scope in Hm. destruct Hm as (Ho & edits & He' & Hedits).
    assert (Hs : edited_in_one_scope w w').
    { exists pre, edits. split; [|split; assumption].
      rewrite He', He, <- app_assoc. reflexivity. }
    destruct Ho as [->| ->]; [exact Hs|]. right. split; [reflexivity|exact Hs]. }
  destruct (template func) as [name|].
  - destruct (render_with_template h w name replacement) as [w1 r] eqn:Hr.
    apply render_with_template_spec in Hr.
    destruct r as [o1|rendered].
    + injection H as <- <-. destruct o1; [exact Hr|contradiction|].
      left. exact Hr.
    + destruct Hr as (Hb & Hpre). apply (Hedit w1 rendered Hb Hpre H).
  - apply (Hedit w replacement eq_refl); [|exact H].
    exists []. rewrite app_nil_r. split; [reflexivity|constructor].
Qed.

(** X20: a call that aborts with an error report (the five popups: parse
    error, expansion not found, traceback of the callable, template file not
    found, template error) leaves the buffer as it was: it removes nothing,
    inserts nothing and opens no undo scope, and the popup is the last
    thing it does. *)
Theorem reported_abort_leaves_buffer (h : Host) (w w' : World) :
  expandAtCursor h w = (w', Aborted) ->
  buffer w' = buffer w
  /\ exists pre title msg icon,
       events w' = events w ++ pre ++ [EvPopup title msg icon]
       /\ Forall (fun e => is_buffer_event e = false) pre.
Proof.
  intros H. apply expandAtCursor_cases in H. exact H.
Qed.

(** C1: the buffer is not always edited only after every step that can
    fail.  A plain expansion that returns no string is found, called and
    its call removed from the buffer, arguments first and word second; the
    insertion then raises its TypeError inside the undo scope, which closes
    with the two removals done and nothing inserted.  The same return
    value of an expansion with a template is refused by the assertion of
    line 335 before anything is removed. *)
Theorem removals_without_insertion :
  expandAtCursor plain_host (mkWorld ["stamp(1, 2) rest"] [])
  = (mkWorld [" rest"]
       [EvStartEditing;
        EvRemoveText (mkRange (mkCursor 0 5) (mkCursor 0 11));
        EvRemoveText (mkRange (mkCursor 0 0) (mkCursor 0 5));
        EvEndEditing],
     Uncaught ExcTypeError)
  /\ expandAtCursor plain_host (mkWorld ["hello(1, 2) rest"] [])
     = (mkWorld ["hello(1, 2) rest"] [], Uncaught ExcAssertionError).
Proof. split; vm_compute; reflexivity. Qed.

Lemma expandAtCursor_invoked (h : Host) (w : World) (word_range : Range)
    (argument_range : option Range) (func : Function)
    (replacement : PyValue) :
  invoked h w word_range argument_range func (Returns replacement) ->
  expandAtCursor h w
  = let '(w1, r) :=
      match template func with
      | Some name => render_with_template h w name replacement
      | None => (w, inr replacement)
      end in
    match r with
    | inl o => (w1, o)
    | inr rendered =>
        makeAtomicUndo w1
          (edit_block h func word_range argument_range rendered)
    end.
Proof.
  intros (H1 & expansions & path & arguments & namedArgs
          & H2 & H3 & H4 & H5).
  unfold expandAtCursor. rewrite H1, H2, H3, H4, H5. reflexivity.
Qed.

(** The five reports and what leads to each. *)
Lemma abort_causes (h : Host) (w : World) :
  (forall e,
      wordAndArgumentAtCursorRanges (buffer w) (cursorPosition h)
      = Err (ExcParseError e) ->
      expandAtCursor h w
      = (popup w "Parse error" (MsgParseError e) "dialog-warning", Aborted))
  /\ (forall word_range argument_range expansions,
         wordAndArgumentAtCursorRanges (buffer w) (cursorPosition h)
         = Ok (word_range, argument_range) ->
         fst (getExpansionsFor (fs h) (mimeType h) (interpreter h))
         = Ok expansions ->
         expansions !! text (buffer w) word_range = None ->
         expandAtCursor h w
         = (popup w "Error"
              (MsgExpansionNotFound (text (buffer w) word_range))
              "dialog-warning", Aborted))
  /\ (forall word_range argument_range func s,
         invoked h w word_range argument_range func (RaisesException s) ->
         expandAtCursor h w
         = (popup w "Error" (MsgTraceback s) "dialog-error", Aborted))
  /\ (forall word_range argument_range func name data,
         invoked h w word_range argument_range func (Returns (VDict data)) ->
         template func = Some name ->
         findApplicationResource h
           (_JINJA_TEMPLATES_BASE_DIR +:+ "/" +:+ name) = None ->
         expandAtCursor h w
         = (popup (emit w (EvFindResource
                             (_JINJA_TEMPLATES_BASE_DIR +:+ "/" +:+ name)))
              "Error" (MsgTemplateNotFound name) "dialog-error", Aborted))
  /\ (forall word_range argument_range func name data filename pos message,
         invoked h w word_range argument_range func (Returns (VDict data)) ->
         template func = Some name ->
         findApplicationResource h
           (_JINJA_TEMPLATES_BASE_DIR +:+ "/" +:+ name) = Some filename ->
         nonempty filename = true ->
         find _JINJA_TEMPLATES_BASE_DIR filename = Some pos ->
         render h
           (substr filename 0 (pos + strlen _JINJA_TEMPLATES_BASE_DIR))
           (substr filename (pos + strlen _JINJA_TEMPLATES_BASE_DIR + 1)
              (strlen filename))
           data = TemplateError message ->
         expandAtCursor h w
         = (popup (emit w (EvFindResource
                             (_JINJA_TEMPLATES_BASE_DIR +:+ "/" +:+ name)))
              "Error" (MsgTemplateError name message) "dialog-error",
            Aborted)).
Proof.
  repeat split.
  - intros e H. unfold expandAtCursor. rewrite H. reflexivity.
  - intros word_range argument_range expansions H1 H2 H3.
    unfold expandAtCursor. rewrite H1, H2, H3. reflexivity.
  - intros word_range argument_range func s
      (H1 & expansions & path & arguments & namedArgs
       & H2 & H3 & H4 & H5).
    unfold expandAtCursor. rewrite H1, H2, H3, H4, H5. reflexivity.
  - intros word_range argument_range func name data Hi Ht Hf.
    rewrite (expandAtCursor_invoked _ _ _ _ _ _ Hi), Ht.
    unfold render_with_template. rewrite Hf. reflexivity.
  - intros word_range argument_range func name data filename pos message
      Hi Ht Hf Hne Hfind Hr.
    rewrite (expandAtCursor_invoked _ _ _ _ _ _ Hi), Ht.
    unfold render_with_template. rewrite Hf.
    destruct filename as [|c filename]; [discriminate|].
    rewrite Hfind, Hr. reflexivity.
Qed.

(** C10: when the function found has a template, a returned dictionary
    takes the call to the lookup of the template file, and any other
    returned value ends the call in the AssertionError of line 335: no
    popup, no lookup, the buffer and the trace as they were. *)
Theorem template_result_asserted (h : Host) (w : World) (word_range : Range)
    (argument_range : option Range) (func : Function) (name : string)
    (replacement : PyValue) :
  invoked h w word_range argument_range func (Returns replacement) ->
  template func = Some name ->
  match replacement with
  | VDict data =>
      exists rest,
        events (expandAtCursor h w).1
        = events w
          ++ EvFindResource (_JINJA_TEMPLATES_BASE_DIR +:+ "/" +:+ name)
             :: rest
  | _ => expandAtCursor h w = (w, Uncaught ExcAssertionError)
  end.
Proof.
  intros Hi Ht.
  rewrite (expandAtCursor_invoked _ _ _ _ _ _ Hi), Ht.
  destruct replacement as [s|data|repr]; try reflexivity.
  set (path := _JINJA_TEMPLATES_BASE_DIR +:+ "/" +:+ name).
  destruct (render_with_template h w name (VDict data)) as [w1 r] eqn:Hr.
  assert (Hw1 : exists rest1,
             events w1 = events w ++ EvFindResource path :: rest1).
  { unfold render_with_template in Hr. fold path in Hr.
    destruct (findApplicationResource h path) as [[|c filename]|];
      try (injection Hr as <- _; exists [EvPopup "Error"
             (MsgTemplateNotFound name) "dialog-error"];
           simpl; rewrite <- app_assoc; reflexivity).
    destruct (find _JINJA_TEMPLATES_BASE_DIR (String c filename));
      [|injection Hr as <- _; exists []; reflexivity].
    destruct (render h _ _ data) as [t|message]; injection Hr as <- _.
    - exists []. reflexivity.
    - exists [EvPopup "Error" (MsgTemplateError name message)
                "dialog-error"].
      simpl. rewrite <- app_assoc. reflexivity. }
  destruct Hw1 as [rest1 Hw1].
  destruct r as [o|rendered]; simpl.
  - exists rest1. exact Hw1.
  - destruct (makeAtomicUndo w1
                (edit_block h func word_range argument_range rendered))
      as [w2 o] eqn:Hm.
    apply edit_scope in Hm. destruct Hm as (_ & edits & He & _).
    simpl. rewrite He, Hw1.
    exists (rest1 ++ [EvStartEditing] ++ edits ++ [EvEndEditing]).
    rewrite <- app_assoc. reflexivity.
Qed.

Lemma reported_abort_leaves_buffer_witness :
  expandAtCursor plain_host (mkWorld ["nosuch"] [])
  = (mkWorld ["nosuch"]
       [EvPopup "Error" (MsgExpansionNotFound "nosuch") "dialog-warning"],
     Aborted)
  /\ buffer (mkWorld ["nosuch"]
               [EvPopup "Error" (MsgExpansionNotFound "nosuch")
                  "dialog-warning"])
     = ["nosuch"].
Proof.
  assert (H : expandAtCursor plain_host (mkWorld ["nosuch"] [])
              = (mkWorld ["nosuch"]
                   [EvPopup "Error" (MsgExpansionNotFound "nosuch")
                      "dialog-warning"],
                 Aborted)) by (vm_compute; reflexivity).
  split; [exact H|].
  exact (proj1 (reported_abort_leaves_buffer _ _ _ H)).
Defined.

Lemma template_result_asserted_witness :
  invoked plain_host (mkWorld ["hello"] [])
    (mkRange (mkCursor 0 0) (mkCursor 0 5)) None hello
    (Returns (VOther "None"))
  /\ expandAtCursor plain_host (mkWorld ["hello"] [])
     = (mkWorld ["hello"] [], Uncaught ExcAssertionError).
Proof.
  assert (H : invoked plain_host (mkWorld ["hello"] [])
                (mkRange (mkCursor 0 0) (mkCursor 0 5)) None hello
                (Returns (VOther "None"))).
  { split; [vm_compute; reflexivity|].
    eexists _, _, _, _.
    split; [vm_compute; reflexivity|].
    split; [vm_compute; reflexivity|].
    split; [vm_compute; reflexivity|].
    vm_compute; reflexivity. }
  split; [exact H|].
  exact (template_result_asserted plain_host _ _ _ hello "hi.tmpl"
           (VOther "None") H eq_refl).
Defined.

(** The two ways on from the assertion, and a plain expansion, run. *)
Example expand_examples :
  expandAtCursor plain_host (mkWorld ["greet"] [])
  = (mkWorld ["greet"]
       [EvFindResource "expand/templates/hi.tmpl";
        EvPopup "Error" (MsgTemplateNotFound "hi.tmpl") "dialog-error"],
     Aborted)
  /\ expandAtCursor plain_host (mkWorld ["today() is"] [])
     = (mkWorld ["2013-05-01 is"]
          [EvStartEditing;
           EvRemoveText (mkRange (mkCursor 0 5) (mkCursor 0 7));
           EvRemoveText (mkRange (mkCursor 0 0) (mkCursor 0 5));
           EvInsertText (mkCursor 0 0) "2013-05-01";
           EvEndEditing],
        Applied).
Proof. split; vm_compute; reflexivity. Qed.

(* ===================================================================== *)
(** * 19. Further properties of the delimiter matcher *)
(* ===================================================================== *)

Lemma scan_char_state_ok (o : ascii) (ch : option ascii) (lv lv' : Z)
    (st st' : option ascii) (m : bool) :
  state_ok st -> scan_char o ch lv st = (lv', st', m) -> state_ok st'.
Proof.
  intros Hst H. unfold scan_char in H.
  destruct (in_quotes st) eqn:Hq.
  - destruct (match ch with Some _ => _ | None => _ end);
      injection H as _ <- _; [left; reflexivity|right; exact Hq].
  - destruct (is_char ch o); [injection H as _ <- _; exact Hst|].
    destruct (is_char ch (closing_of o)); [injection H as _ <- _; exact Hst|].
    destruct (in_quotes ch) eqn:Hc; injection H as _ <- _;
      [right; exact Hc|exact Hst].
Qed.

(** A state in a quoted span comes from a state in a quoted span or from a
    quote character under the cursor. *)
Lemma scan_char_quote_source (o : ascii) (ch : option ascii) (lv lv' : Z)
    (st : option ascii) (q : ascii) (m : bool) :
  scan_char o ch lv st = (lv', Some q, m) ->
  (exists q', st = Some q') \/ (exists c, ch = Some c).
Proof.
  intros H. destruct st as [q'|]; [left; eauto|].
  destruct ch as [c|]; [right; eauto|].
  unfold scan_char in H. simpl in H. discriminate.
Qed.

Lemma scan_loop_result_closing (document : Document) (o : ascii)
    (fuel : nat) :
  forall (s : ScanState) (r : Cursor),
    state_ok (state s) ->
    scan_loop fuel document o s = Some (inr r) ->
    exists q, r = break_pos o q
              /\ character document q = Some (closing_of o).
Proof.
  induction fuel as [|fuel IH]; intros s r Hst H; [discriminate|].
  rewrite scan_loop_S, loop_body_eq in H.
  destruct (scan_char o (character document (position s)) (level s)
              (state s)) as [[lv' st'] b] eqn:Hsc.
  destruct b.
  - injection H as <-.
    destruct (scan_char_matched _ _ _ _ _ _ Hst Hsc) as (Hch & _).
    exists (position s). split; [reflexivity|exact Hch].
  - destruct (advance document o (position s) st') as [e|x1];
      [discriminate|].
    apply (IH (mkScan x1 lv' st') r); [|exact H].
    simpl. eapply scan_char_state_ok; eauto.
Qed.

(** X1: the loop of the matcher ends on every input: [doc_size + 2] turns
    are enough, and with that many or more the loop gives the result of the
    function, a cursor or a ParseError. *)
Theorem matcher_terminates (document : Document) (pos : Cursor)
    (opening : ascii) (fuel : nat) :
  (S (S (doc_size document)) <= fuel)%nat ->
  scan_loop fuel document opening (scan_init pos)
  = Some (matchingParenthesisPosition document pos opening).
Proof.
  intros Hle.
  apply (scan_loop_more_fuel _ _ (scan_fuel document)); [|exact Hle].
  apply scan_loop_of_matching. reflexivity.
Qed.

Lemma matcher_terminates_witness :
  (S (S (doc_size ["f(a,"; "g(b))"])) <= 20)%nat
  /\ scan_loop 20 ["f(a,"; "g(b))"] "(" (scan_init (mkCursor 0 1))
     = Some (inr (mkCursor 1 5)).
Proof.
  assert (H : (S (S (doc_size ["f(a,"; "g(b))"])) <= 20)%nat)
    by (vm_compute; lia).
  split; [exact H|].
  exact (matcher_terminates ["f(a,"; "g(b))"] (mkCursor 0 1) "(" 20 H).
Defined.

(** X2: whatever the start position and the opening character, a cursor
    the matcher returns is the cursor of a closing delimiter of the
    document (one column past it in the forward direction): the matcher
    never returns a cursor of its own making. *)
Theorem matcher_returns_closing_delimiter (document : Document)
    (pos r : Cursor) (opening : ascii) :
  matchingParenthesisPosition document pos opening = inr r ->
  exists q,
    character document q = Some (closing_of opening)
    /\ r = (if Ascii.eqb (closing_of opening) ")"
            then setColumn q (column q + delta_of opening)
            else q).
Proof.
  intros H. apply scan_loop_of_matching in H.
  destruct (scan_loop_result_closing _ _ _ (scan_init pos) r
              (or_introl eq_refl) H) as (q & Hr & Hq).
  exists q. split; [exact Hq|exact Hr].
Qed.

Lemma matcher_returns_closing_delimiter_witness :
  exists q,
    character ["x (a) y"] q = Some ")"%char
    /\ mkCursor 0 5 = setColumn q (column q + 1).
Proof.
  exact (matcher_returns_closing_delimiter ["x (a) y"] (mkCursor 0 0)
           (mkCursor 0 5) "(" eq_refl).
Defined.

(** X3: the two directions answer each other on every successful scan that
    starts on its opening delimiter, quoted spans and line wraps between the
    delimiters included: the scan of the other direction, started on the
    delimiter found, finds the delimiter the first scan started on. *)
Theorem scan_round_trip (document : Document) (o : ascii) (p r : Cursor) :
  is_paren o ->
  character document p = Some o ->
  matchingParenthesisPosition document p o = inr r ->
  exists q,
    r = break_pos o q
    /\ character document q = Some (closing_of o)
    /\ matchingParenthesisPosition document q (closing_of o)
       = inr (break_pos (closing_of o) p).
Proof. apply matching_inverse. Qed.

Lemma scan_round_trip_witness :
  exists q,
    mkCursor 0 13 = break_pos "(" q
    /\ character quoted_call q = Some ")"%char
    /\ matchingParenthesisPosition quoted_call q ")" = inr (mkCursor 0 3).
Proof.
  exact (scan_round_trip quoted_call "(" (mkCursor 0 3) (mkCursor 0 13)
           (or_introl eq_refl) eq_refl eq_refl).
Defined.

Lemma on_char_line_bounds (document : Document) (pos : Cursor) :
  on_char document pos ->
  0 <= line pos < Z.of_nat (List.length document).
Proof.
  intros [c Hc]. apply character_Some in Hc.
  destruct Hc as (s & Hn & Hl & _).
  assert (Z.to_nat (line pos) < List.length document)%nat
    by (apply nth_error_Some; congruence).
  lia.
Qed.

Lemma quote_error_two_lines (document : Document) (o : ascii) (q : ascii)
    (fuel : nat) :
  forall s : ScanState,
    on_char document (position s) \/ state s = None ->
    scan_loop fuel document o s = Some (inl (EndOfLineSearchingQuote q)) ->
    in_quotes (Some q) = true /\ (2 <= List.length document)%nat.
Proof.
  induction fuel as [|fuel IH]; intros s Hs H; [discriminate|].
  rewrite scan_loop_S in H.
  destruct (loop_body document o s) as [s'|p|e] eqn:Hb.
  - apply (IH s'); [|exact H]. left.
    apply loop_body_Continue in Hb. eapply advance_on_char; eauto.
  - discriminate.
  - injection H as ->.
    destruct (loop_body_Raise _ _ _ _ Hb) as (_ & Hq & Hw).
    split; [exact Hq|].
    assert (Hon : on_char document (position s)).
    { destruct Hs as [Hon|Hnone]; [exact Hon|].
      rewrite loop_body_eq in Hb.
      destruct (scan_char o (character document (position s)) (level s)
                  (state s)) as [[lv st'] m] eqn:Hsc.
      destruct m; [discriminate|].
      rewrite advance_eq in Hb.
      destruct (character document
                  (setColumn (position s)
                     (column (position s) + delta_of o)));
        [discriminate|].
      destruct (character document
                  (wrap_target document o (position s)));
        [|discriminate].
      destruct st' as [q'|]; [|discriminate].
      destruct (scan_char_quote_source _ _ _ _ _ _ _ Hsc) as [[q0 Hq0]|Hc].
      - congruence.
      - exact Hc. }
    apply on_char_line_bounds in Hon. apply on_char_line_bounds in Hw.
    unfold wrap_target in Hw.
    destruct (delta_cases o) as [Hd|Hd]; rewrite Hd in Hw; simpl in Hw; lia.
Qed.

(** X4: the error "end of line reached while searching for a quote" names
    one of the two quote characters, and it is raised only in a document of
    two lines or more: a quote left open on the only line of a buffer is
    reported as "end of file reached". *)
Theorem quote_error_needs_adjacent_line (document : Document) (pos : Cursor)
    (opening q : ascii) :
  matchingParenthesisPosition document pos opening
  = inl (EndOfLineSearchingQuote q) ->
  (q = dquote \/ q = squote) /\ (2 <= List.length document)%nat.
Proof.
  intros H. apply scan_loop_of_matching in H.
  destruct (quote_error_two_lines _ _ _ _ (scan_init pos)
              (or_intror eq_refl) H) as [Hq Hlen].
  split; [|exact Hlen]. simpl in Hq. apply orb_true_iff in Hq.
  destruct Hq as [Hq|Hq]; apply Ascii.eqb_eq in Hq; auto.
Qed.

Lemma quote_error_needs_adjacent_line_witness :
  (squote = dquote \/ squote = squote)
  /\ (2 <= List.length ["f('a"; "b)"])%nat.
Proof.
  exact (quote_error_needs_adjacent_line ["f('a"; "b)"] (mkCursor 0 1) "("
           squote eq_refl).
Defined.

(* ===================================================================== *)
(** * 20. Further properties of the cursor locator *)
(* ===================================================================== *)

Lemma closing_case_Err (document : Document) (c : Cursor) (e : Exception) :
  closing_case document c = Err e -> exists pe, e = ExcParseError pe.
Proof.
  unfold closing_case. intros H.
  destruct (matchingParenthesisPosition document c ")") as [pe|p];
    simpl in H; [|discriminate].
  injection H as <-. eauto.
Qed.

Lemma py_index_Err (s : string) (i : Z) (e : Exception) :
  py_index s i = Err e ->
  e = ExcIndexError /\ (i < - strlen s \/ strlen s <= i).
Proof.
  unfold py_index, strlen. intros H.
  destruct (Z.ltb_spec i 0) as [Hi|Hi].
  - destruct (Z.ltb_spec (Z.of_nat (String.length s) + i) 0) as [Hj|Hj].
    + injection H as <-. split; [reflexivity|lia].
    + destruct (String.get _ s) eqn:G; [discriminate|].
      injection H as <-. split; [reflexivity|].
      apply get_None_ge in G. lia.
  - destruct (Z.ltb_spec i 0) as [Hj|Hj]; [lia|].
    destruct (String.get _ s) eqn:G; [discriminate|].
    injection H as <-. split; [reflexivity|].
    apply get_None_ge in G. lia.
Qed.

Lemma first_case_on_paren (document : Document) (cursor : Cursor) :
  (column cursor <? strlen (doc_line document (line cursor)))
  && is_char (String.get (Z.to_nat (column cursor))
                (doc_line document (line cursor))) ")" = true ->
  0 < column cursor ->
  character document cursor = Some ")"%char.
Proof.
  intros H Hc. apply andb_true_iff in H. destruct H as [_ H].
  unfold character, doc_line in *.
  destruct (plainLine document (line cursor)) as [s|]; [|discriminate].
  destruct (Z.ltb_spec (column cursor) 0); [lia|].
  destruct (String.get _ s) as [c|]; [|discriminate].
  simpl in H. apply Ascii.eqb_eq in H. congruence.
Qed.

(** X5: the locator raises nothing but ParseError and IndexError, and
    IndexError only when the cursor is on a closing parenthesis (the first
    special case has re-seated it) or stands more than one column past the
    end of its line. *)
Theorem locator_errors (document : Document) (cursor : Cursor)
    (e : Exception) :
  wordAndArgumentAtCursorRanges document cursor = Err e ->
  (exists pe, e = ExcParseError pe)
  \/ (e = ExcIndexError
      /\ (character document cursor = Some ")"%char
          \/ strlen (doc_line document (line cursor)) < column cursor)).
Proof.
  unfold wordAndArgumentAtCursorRanges. intros H.
  set (line_text := doc_line document (line cursor)) in *.
  destruct (Z.ltb_spec 0 (column cursor)) as [Hc|Hc].
  - destruct ((column cursor <? strlen line_text)
              && is_char (String.get (Z.to_nat (column cursor)) line_text)
                   ")") eqn:Hfirst.
    + (* the first special case applies *)
      pose proof (first_case_on_paren _ _ Hfirst Hc) as Hparen.
      destruct (closing_case document
                  (mkCursor (line cursor) (column cursor)))
        as [[argument_range cursor1]|e1] eqn:Hcc.
      2: { simpl in H. injection H as <-.
           left. eapply closing_case_Err; eauto. }
      simpl in H.
      destruct (py_index line_text (column cursor1 - 1)) as [ch|e2] eqn:Hpi.
      2: { simpl in H. injection H as <-.
           apply py_index_Err in Hpi. destruct Hpi as [-> _].
           right. split; [reflexivity|left; exact Hparen]. }
      simpl in H.
      destruct (Ascii.eqb ch ")").
      * destruct (closing_case document
                    (mkCursor (line cursor1) (column cursor1 - 1)))
          as [[argument_range2 cursor2]|e3] eqn:Hcc2.
        2: { simpl in H. injection H as <-.
             left. eapply closing_case_Err; eauto. }
        locator_tail H.
      * locator_tail H.
    + simpl in H.
      destruct (py_index line_text (column cursor - 1)) as [ch|e2] eqn:Hpi.
      2: { simpl in H. injection H as <-.
           apply py_index_Err in Hpi. destruct Hpi as [-> Hb].
           right. split; [reflexivity|right; lia]. }
      simpl in H.
      destruct (Ascii.eqb ch ")").
      * destruct (closing_case document
                    (mkCursor (line cursor) (column cursor - 1)))
          as [[argument_range2 cursor2]|e3] eqn:Hcc2.
        2: { simpl in H. injection H as <-.
             left. eapply closing_case_Err; eauto. }
        locator_tail H.
      * locator_tail H.
  - locator_tail H.
Qed.

Lemma locator_errors_witness :
  (exists pe, ExcIndexError = ExcParseError pe)
  \/ (ExcIndexError = ExcIndexError
      /\ (character two_line_call (mkCursor 1 1) = Some ")"%char
          \/ strlen (doc_line two_line_call 1) < 1)).
Proof.
  exact (locator_errors two_line_call (mkCursor 1 1) ExcIndexError eq_refl).
Defined.

(* ===================================================================== *)
(** * 21. Further properties of the expansion registry *)
(* ===================================================================== *)

Lemma fold_left_pointwise {A B} (f g : A -> B -> A) (l : list B) (a : A) :
  (forall x y, f x y = g x y) -> fold_left f l a = fold_left g l a.
Proof.
  intros Hfg. revert a. induction l as [|b l IH]; intros a; simpl;
    [reflexivity|]. rewrite Hfg. apply IH.
Qed.

Lemma loadExpansionsFromFile_eq (fs : FileSystem)
    (modules : gmap string PyModule) (path : string) (module : PyModule) :
  load_source fs (modules !! module_name path) path = Loaded module ->
  loadExpansionsFromFile fs modules path
  = (Ok (fold_left (load_step path) module (∅, [LogLoading path])),
     <[module_name path := module]> modules).
Proof.
  intros H. unfold loadExpansionsFromFile. rewrite H. simpl.
  do 2 f_equal. apply fold_left_pointwise.
  intros [expansions log] [name [f|]]; reflexivity.
Qed.

Lemma load_step_keys (path : string) (module : PyModule)
    (P : string -> Function -> string -> Prop) :
  (forall name f,
      In (name, ObjFunction f) module -> startswith_dunder name = false ->
      P (__name__ f) f path) ->
  forall acc : gmap string Expansion * list LogMsg,
    (forall k f p, acc.1 !! k = Some (f, p) -> P k f p) ->
    forall k f p,
      (fold_left (load_step path) module acc).1 !! k = Some (f, p) ->
      P k f p.
Proof.
  induction module as [|[name o] module IH]; intros Hm acc Hacc; simpl.
  - exact Hacc.
  - apply IH.
    + intros name' f' Hin. apply Hm. right. exact Hin.
    + destruct acc as [expansions log]. simpl in *.
      destruct o as [g|]; [|exact Hacc].
      destruct (startswith_dunder name) eqn:Hd; simpl; [exact Hacc|].
      intros k f p Hk. destruct (decide (__name__ g = k)) as [<-|Hne].
      * rewrite lookup_insert_eq in Hk. injection Hk as <- <-.
        apply (Hm name g); [left; reflexivity|exact Hd].
      * rewrite lookup_insert_ne in Hk by done. apply (Hacc _ _ _ Hk).
Qed.

Lemma load_step_keeps_path (path : string) (module : PyModule) :
  forall (acc : gmap string Expansion * list LogMsg) (k : string),
    (exists g, acc.1 !! k = Some (g, path) /\ __name__ g = k) ->
    exists g, (fold_left (load_step path) module acc).1 !! k
              = Some (g, path) /\ __name__ g = k.
Proof.
  induction module as [|[name o] module IH]; intros acc k Hk; simpl.
  - exact Hk.
  - apply IH. destruct acc as [expansions log]. simpl in *.
    destruct o as [g|]; [|exact Hk].
    destruct (startswith_dunder name); simpl; [exact Hk|].
    destruct (decide (__name__ g = k)) as [<-|Hne].
    + exists g. rewrite lookup_insert_eq. auto.
    + rewrite lookup_insert_ne by done. exact Hk.
Qed.

Lemma load_step_registers (path : string) (module : PyModule)
    (name : string) (f : Function) :
  In (name, ObjFunction f) module -> startswith_dunder name = false ->
  forall acc : gmap string Expansion * list LogMsg,
    exists g, (fold_left (load_step path) module acc).1 !! __name__ f
              = Some (g, path) /\ __name__ g = __name__ f.
Proof.
  induction module as [|[name' o] module IH]; intros Hin Hd acc;
    [contradiction|].
  simpl. destruct Hin as [Heq|Hin].
  - injection Heq as -> ->. apply load_step_keeps_path.
    destruct acc as [expansions log]. simpl. rewrite Hd. simpl.
    exists f. rewrite lookup_insert_eq. auto.
  - apply IH; assumption.
Qed.

(** X6: the expansions of a file are keyed by the [__name__] of their
    function, not by the attribute the function is bound to: every entry is
    a function bound to an attribute whose name does not start with two
    underscores, stored under its own [__name__] with the path of the file,
    and every such function has its [__name__] registered.  [module] is
    the module object that the load returns, whatever was registered under
    its name before. *)
Theorem loaded_entries (fs : FileSystem) (modules modules' : gmap string PyModule)
    (path : string) (module : PyModule)
    (expansions : gmap string Expansion) (log : list LogMsg) :
  load_source fs (modules !! module_name path) path = Loaded module ->
  loadExpansionsFromFile fs modules path = (Ok (expansions, log), modules') ->
  (forall k f p,
      expansions !! k = Some (f, p) ->
      __name__ f = k /\ p = path
      /\ exists name, In (name, ObjFunction f) module
                      /\ startswith_dunder name = false)
  /\ (forall name f,
         In (name, ObjFunction f) module ->
         startswith_dunder name = false ->
         exists g, expansions !! __name__ f = Some (g, path)
                   /\ __name__ g = __name__ f).
Proof.
  intros Hsrc Hload. rewrite (loadExpansionsFromFile_eq _ _ _ _ Hsrc) in Hload.
  injection Hload as Hload _.
  assert (He : expansions
               = (fold_left (load_step path) module
                    (∅, [LogLoading path])).1) by (rewrite Hload; reflexivity).
  subst expansions. split.
  - apply (load_step_keys path module
             (fun k f p =>
                __name__ f = k /\ p = path
                /\ exists name, In (name, ObjFunction f) module
                                /\ startswith_dunder name = false)).
    + intros name f Hin Hd. repeat split; eauto.
    + simpl. intros k f p Hk. rewrite lookup_empty in Hk. discriminate.
  - intros name f Hin Hd. apply (load_step_registers _ _ _ _ Hin Hd).
Qed.

Lemma loaded_entries_witness :
  exists expansions log modules,
    loadExpansionsFromFile renaming_file ∅ "/e/all.expand"
    = (Ok (expansions, log), modules)
    /\ exists g, expansions !! "__date" = Some (g, "/e/all.expand")
                 /\ __name__ g = "__date".
Proof.
  destruct (loadExpansionsFromFile renaming_file ∅ "/e/all.expand")
    as [[[expansions log]|e] modules] eqn:H.
  - exists expansions, log, modules. split; [reflexivity|].
    exact (proj2 (loaded_entries renaming_file ∅ modules "/e/all.expand"
                    [("__doc__", ObjOther);
                     ("helper", ObjFunction renamed_function)]
                    expansions log eq_refl H)
             "helper" renamed_function (or_intror (or_introl eq_refl))
             eq_refl).
  - vm_compute in H. discriminate.
Defined.

Lemma load_step_skips (path : string) (module : PyModule) (k : string) :
  (forall name g,
      In (name, ObjFunction g) module -> startswith_dunder name = false ->
      __name__ g <> k) ->
  forall acc : gmap string Expansion * list LogMsg,
    (fold_left (load_step path) module acc).1 !! k = acc.1 !! k.
Proof.
  induction module as [|[name o] module IH]; intros Hm acc; simpl;
    [reflexivity|].
  rewrite IH by (intros name' g Hin; apply Hm; right; exact Hin).
  destruct acc as [expansions log]. simpl.
  destruct o as [g|]; [|reflexivity].
  destruct (startswith_dunder name) eqn:Hd; simpl; [reflexivity|].
  apply lookup_insert_ne. apply (Hm name g); [left; reflexivity|exact Hd].
Qed.

(** X7: inside one file the last definition wins: of the functions with
    the same [__name__], the one bound to the last attribute in the order
    of [dir(module)] is the one registered, unlike across files, where the
    first one is kept. *)
Theorem last_attribute_wins (fs : FileSystem)
    (modules modules' : gmap string PyModule) (path : string)
    (before after : PyModule) (name : string) (f : Function)
    (expansions : gmap string Expansion) (log : list LogMsg) :
  load_source fs (modules !! module_name path) path
  = Loaded (before ++ (name, ObjFunction f) :: after) ->
  startswith_dunder name = false ->
  (forall name' g,
      In (name', ObjFunction g) after -> startswith_dunder name' = false ->
      __name__ g <> __name__ f) ->
  loadExpansionsFromFile fs modules path = (Ok (expansions, log), modules') ->
  expansions !! __name__ f = Some (f, path).
Proof.
  intros Hsrc Hd Hafter Hload.
  rewrite (loadExpansionsFromFile_eq _ _ _ _ Hsrc) in Hload.
  injection Hload as Hload _.
  assert (He : expansions
               = (fold_left (load_step path)
                    (before ++ (name, ObjFunction f) :: after)
                    (∅, [LogLoading path])).1) by (rewrite Hload; reflexivity).
  subst expansions. rewrite fold_left_app. simpl.
  rewrite (load_step_skips _ _ _ Hafter).
  destruct (fold_left (load_step path) before (∅, [LogLoading path]))
    as [expansions0 log0]. simpl. rewrite Hd. simpl.
  apply lookup_insert_eq.
Qed.

Lemma last_attribute_wins_witness :
  exists expansions log modules,
    loadExpansionsFromFile two_dates ∅ "/e/all.expand"
    = (Ok (expansions, log), modules)
    /\ expansions !! "date" = Some (date_second, "/e/all.expand").
Proof.
  destruct (loadExpansionsFromFile two_dates ∅ "/e/all.expand")
    as [[[expansions log]|e] modules] eqn:H.
  - exists expansions, log, modules. split; [reflexivity|].
    assert (Hsrc : load_source two_dates
                     ((∅ : gmap string PyModule) !! module_name "/e/all.expand")
                     "/e/all.expand"
                   = Loaded ([("a", ObjFunction date_first)]
                             ++ [("b", ObjFunction date_second)]))
      by (vm_compute; reflexivity).
    apply (last_attribute_wins two_dates ∅ modules "/e/all.expand"
             [("a", ObjFunction date_first)] [] "b" date_second
             expansions log Hsrc eq_refl).
    + intros name' g [].
    + exact H.
  - vm_compute in H. discriminate.
Defined.

(** X8: merging composes like a left-biased union: merging with an empty
    mapping on either side changes nothing and logs nothing on the right,
    merging a mapping with itself returns it, merging three mappings gives
    the same result however the two merges are nested, and the names of the
    result are the names of the two mappings together. *)
Theorem merge_algebra (a b c : gmap string Expansion) :
  mergeExpansions a ∅ = (a, [])
  /\ (mergeExpansions ∅ b).1 = b
  /\ (mergeExpansions a a).1 = a
  /\ (mergeExpansions (mergeExpansions a b).1 c).1
     = (mergeExpansions a (mergeExpansions b c).1).1
  /\ dom (mergeExpansions a b).1 = dom a ∪ dom b.
Proof.
  repeat split.
  - rewrite (proj1 (mergeExpansions_spec ∅ b)). apply (left_id_L ∅ (∪)).
  - rewrite (proj1 (mergeExpansions_spec a a)). apply (idemp_L (∪)).
  - rewrite !(proj1 (mergeExpansions_spec _ _)). symmetry.
    apply (assoc_L (∪)).
  - rewrite (proj1 (mergeExpansions_spec a b)). apply dom_union_L.
Qed.

Lemma merge_log_length (a b : gmap string Expansion) :
  (mergeExpansions a b).1 = a ∪ b
  /\ List.length (mergeExpansions a b).2 = (2 * size (dom a ∩ dom b))%nat.
Proof.
  unfold mergeExpansions.
  apply (map_fold_weak_ind
           (fun (r : gmap string Expansion * list LogMsg)
                (m : gmap string Expansion) =>
              r.1 = a ∪ m
              /\ List.length r.2 = (2 * size (dom a ∩ dom m))%nat)).
  - split.
    + simpl. rewrite (right_id_L ∅ (∪)). reflexivity.
    + simpl. rewrite dom_empty_L, (right_absorb_L ∅ (∩)), size_empty.
      reflexivity.
  - intros i x m [result log] Hi [IH1 IH2]. simpl in IH1, IH2. subst result.
    unfold merge_step.
    assert (Hl : (a ∪ m) !! i = a !! i).
    { rewrite lookup_union, Hi. destruct (a !! i); reflexivity. }
    assert (Him : i ∉ dom m) by (apply not_elem_of_dom; exact Hi).
    rewrite Hl. destruct (a !! i) as [first_|] eqn:Hai; simpl.
    + split.
      * rewrite insert_id by exact Hl.
        symmetry. apply union_insert_taken. eauto.
      * assert (Hia : i ∈ dom a) by (apply elem_of_dom; eauto).
        replace (dom a ∩ dom (<[i:=x]> m))
          with ({[i]} ∪ (dom a ∩ dom m))
          by (rewrite dom_insert_L; set_solver).
        rewrite size_union by set_solver.
        rewrite size_singleton, length_app, IH2. simpl. lia.
    + split.
      * apply insert_union_r. exact Hai.
      * assert (Hia : i ∉ dom a) by (apply not_elem_of_dom; exact Hai).
        replace (dom a ∩ dom (<[i:=x]> m)) with (dom a ∩ dom m)
          by (rewrite dom_insert_L; set_solver).
        exact IH2.
Qed.

(** X9: merging logs two messages for every name the two mappings share,
    and nothing else: the log is twice as long as the number of shared
    names, and empty exactly when no name is shared. *)
Theorem merge_log_counts_duplicates (a b : gmap string Expansion) :
  List.length (mergeExpansions a b).2 = (2 * size (dom a ∩ dom b))%nat
  /\ ((mergeExpansions a b).2 = [] <-> dom a ∩ dom b = ∅).
Proof.
  pose proof (proj2 (merge_log_length a b)) as H. split; [exact H|].
  split.
  - intros Hnil. rewrite Hnil in H. simpl in H.
    apply leibniz_equiv, size_empty_inv. lia.
  - intros He. rewrite He, size_empty in H.
    destruct ((mergeExpansions a b).2); [reflexivity|simpl in H; lia].
Qed.

Lemma getExpansionsFor_loop_Ok (fs : FileSystem) (file : string)
    (directories : list string) :
  forall (acc : gmap string Expansion) (log : list LogMsg)
         (modules : gmap string PyModule),
    Forall (loads fs)
      (map (fun directory => path_join directory file) directories) ->
    exists r modules',
      getExpansionsFor_loop fs file directories acc log modules
      = (Ok r, modules').
Proof.
  induction directories as [|directory rest IH]; intros acc log modules H;
    simpl.
  - eauto.
  - simpl in H. inversion H as [|? ? Hl Hrest]; subst.
    destruct (path_exists fs (path_join directory file)) eqn:Hex;
      [|apply IH; exact Hrest].
    destruct Hl as [Hl|Hl]; [congruence|].
    destruct (Hl (modules !! module_name (path_join directory file)))
      as [module Hm].
    rewrite (loadExpansionsFromFile_eq _ _ _ _ Hm).
    destruct (fold_left _ module _) as [loaded log1].
    destruct (mergeExpansions acc loaded) as [merged log2].
    apply IH. exact Hrest.
Qed.

Lemma getExpansionsFor_loop_fails (fs : FileSystem) (file : string)
    (e : Exception) (directories : list string) :
  forall (before : list string) (path : string) (after : list string)
         (acc : gmap string Expansion) (log : list LogMsg)
         (modules : gmap string PyModule),
    map (fun directory => path_join directory file) directories
    = before ++ path :: after ->
    Forall (loads fs) before ->
    fails fs path e ->
    exists modules',
      getExpansionsFor_loop fs file directories acc log modules
      = (Err e, modules').
Proof.
  induction directories as [|directory rest IH];
    intros before path after acc log modules Hm Hb Hf; simpl in Hm.
  - destruct before; discriminate.
  - simpl. destruct before as [|b before]; simpl in Hm;
      injection Hm as Hd Hm.
    + subst path. destruct Hf as [Hex Hf]. rewrite Hex.
      destruct (Hf (modules !! module_name (path_join directory file)))
        as [kept Hk].
      unfold loadExpansionsFromFile. rewrite Hk. eauto.
    + subst b. inversion Hb as [|? ? Hl Hrest]; subst.
      destruct (path_exists fs (path_join directory file)) eqn:Hex;
        [|eapply IH; eauto].
      destruct Hl as [Hl|Hl]; [congruence|].
      destruct (Hl (modules !! module_name (path_join directory file)))
        as [module Hmod].
      rewrite (loadExpansionsFromFile_eq _ _ _ _ Hmod).
      destruct (fold_left _ module _) as [loaded log1].
      destruct (mergeExpansions acc loaded) as [merged log2].
      eapply IH; eauto.
Qed.

Lemma getExpansionsFor_loop_Err (fs : FileSystem) (file : string)
    (directories : list string) :
  forall (acc : gmap string Expansion) (log : list LogMsg)
         (modules modules' : gmap string PyModule) (e : Exception),
    getExpansionsFor_loop fs file directories acc log modules
    = (Err e, modules') ->
    exists before path after registered kept,
      map (fun directory => path_join directory file) directories
      = before ++ path :: after
      /\ path_exists fs path = true
      /\ load_source fs registered path = LoadFailed e kept.
Proof.
  induction directories as [|directory rest IH];
    intros acc log modules modules' e H; simpl in H; [discriminate|].
  destruct (path_exists fs (path_join directory file)) eqn:Hex.
  - unfold loadExpansionsFromFile in H.
    destruct (load_source fs
                (modules !! module_name (path_join directory file))
                (path_join directory file)) as [module|e' kept] eqn:Hsrc.
    + destruct (fold_left _ module _) as [loaded log1].
      destruct (mergeExpansions acc loaded) as [merged log2].
      destruct (IH _ _ _ _ _ H)
        as (before & path & after & registered & kept & Hm & Hp).
      exists (path_join directory file :: before), path, after, registered,
        kept.
      split; [simpl; rewrite Hm; reflexivity|exact Hp].
    + injection H as <- _.
      exists [], (path_join directory file),
        (map (fun directory => path_join directory file) rest),
        (modules !! module_name (path_join directory file)), kept.
      split; [reflexivity|]. split; [exact Hex|exact Hsrc].
  - destruct (IH _ _ _ _ _ H)
      as (before & path & after & registered & kept & Hm & Hp).
    exists (path_join directory file :: before), path, after, registered,
      kept.
    split; [simpl; rewrite Hm; reflexivity|exact Hp].
Qed.

Lemma app_eq_middle {A} (l1 l2 before after : list A) (a : A) :
  l1 ++ l2 = before ++ a :: after ->
  (exists after1, l1 = before ++ a :: after1 /\ after = after1 ++ l2)
  \/ (exists before2, before = l1 ++ before2 /\ l2 = before2 ++ a :: after).
Proof.
  revert before. induction l1 as [|x l1 IH]; intros before H; simpl in H.
  - right. exists before. auto.
  - destruct before as [|b before]; simpl in H; injection H as -> H.
    + left. exists l1. subst after. auto.
    + destruct (IH _ H) as [(after1 & -> & ->)|(before2 & -> & ->)].
      * left. exists after1. auto.
      * right. exists before2. auto.
Qed.

Lemma getExpansionsFor_miss (fs : FileSystem) (mime : string)
    (i : Interpreter) :
  lru_cache i !! mime = None ->
  fst (getExpansionsFor fs mime i)
  = match fst (getExpansionsFor_body fs mime (sys_modules i)) with
    | Ok (result, _) => Ok result
    | Err e => Err e
    end.
Proof.
  intros H. unfold getExpansionsFor. rewrite H.
  destruct (getExpansionsFor_body fs mime (sys_modules i))
    as [[[result log]|e] modules]; reflexivity.
Qed.

(** X10: a file that fails to load is not skipped.  When the cache has no
    result for the media type, [getExpansionsFor] returns a mapping if every
    scanned file is missing or loads; it raises the error of the first
    scanned file that fails, in the order of the scan (the files of the
    type, then the files of "all"); and an error it raises is the one of a
    scanned file that is there and fails to load. *)
Theorem load_errors_propagate (fs : FileSystem) (mime : string)
    (i : Interpreter) :
  lru_cache i !! mime = None ->
  (Forall (loads fs) (search_paths fs mime) ->
   exists r, fst (getExpansionsFor fs mime i) = Ok r)
  /\ (forall before path after e,
         search_paths fs mime = before ++ path :: after ->
         Forall (loads fs) before ->
         fails fs path e ->
         fst (getExpansionsFor fs mime i) = Err e)
  /\ (forall e,
         fst (getExpansionsFor fs mime i) = Err e ->
         exists before path after registered kept,
           search_paths fs mime = before ++ path :: after
           /\ path_exists fs path = true
           /\ load_source fs registered path = LoadFailed e kept).
Proof.
  intros Hmiss. rewrite (getExpansionsFor_miss _ _ _ Hmiss).
  unfold search_paths, files_of, getExpansionsFor_body, _getExpansionsFor.
  split; [|split].
  - intros H. apply Forall_app in H. destruct H as [H1 H2].
    destruct (getExpansionsFor_loop_Ok fs _ _ ∅ [] (sys_modules i) H1)
      as ([m1 l1] & modules1 & ->).
    destruct (getExpansionsFor_loop_Ok fs _ _ ∅ [] modules1 H2)
      as ([m2 l2] & modules2 & ->).
    destruct (mergeExpansions m1 m2). simpl. eauto.
  - intros before path after e Hs Hb Hf.
    destruct (app_eq_middle _ _ _ _ _ Hs)
      as [(after1 & H1 & _)|(before2 & -> & H2)].
    + destruct (getExpansionsFor_loop_fails fs _ e _ _ _ _ ∅ []
                  (sys_modules i) H1 Hb Hf) as [modules1 ->].
      reflexivity.
    + apply Forall_app in Hb. destruct Hb as [Hb1 Hb2].
      destruct (getExpansionsFor_loop_Ok fs _ _ ∅ [] (sys_modules i) Hb1)
        as ([m1 l1] & modules1 & ->).
      destruct (getExpansionsFor_loop_fails fs _ e _ _ _ _ ∅ []
                  modules1 H2 Hb2 Hf) as [modules2 ->].
      reflexivity.
  - intros e H.
    destruct (getExpansionsFor_loop fs _ _ ∅ [] (sys_modules i))
      as [[[m1 l1]|e1] modules1] eqn:H1.
    + destruct (getExpansionsFor_loop fs _ _ ∅ [] modules1)
        as [[[m2 l2]|e2] modules2] eqn:H2.
      * destruct (mergeExpansions m1 m2). discriminate.
      * simpl in H. injection H as <-.
        destruct (getExpansionsFor_loop_Err _ _ _ _ _ _ _ _ H2)
          as (before & path & after & registered & kept & Hm & Hp).
        eexists (_ ++ before), path, after, registered, kept.
        split; [rewrite Hm, <- app_assoc; reflexivity|exact Hp].
    + simpl in H. injection H as <-.
      destruct (getExpansionsFor_loop_Err _ _ _ _ _ _ _ _ H1)
        as (before & path & after & registered & kept & Hm & Hp).
      eexists before, path, (after ++ _), registered, kept.
      split; [rewrite Hm, <- app_assoc; reflexivity|exact Hp].
Qed.

Lemma load_errors_propagate_witness :
  lru_cache fresh !! "text/plain" = None
  /\ fst (getExpansionsFor broken_all_file "text/plain" fresh)
     = Err (ExcOther "SyntaxError").
Proof.
  assert (Hmiss : lru_cache fresh !! "text/plain" = None) by reflexivity.
  split; [exact Hmiss|].
  apply (proj1 (proj2 (load_errors_propagate broken_all_file "text/plain"
                         fresh Hmiss))
           ["/e/text_plain.expand"] "/e/all.expand" []).
  - vm_compute. reflexivity.
  - constructor; [|constructor]. right. intros registered.
    eexists. simpl. unfold exec_file. reflexivity.
  - split; [vm_compute; reflexivity|]. intros registered.
    eexists. simpl. reflexivity.
Defined.

(** X11: for the media type "all" every catch-all file is loaded twice in
    one call, the second time in the modules that the first scan left.
    The result gives each name the entry of the first scan, or the one of
    the second scan for a name that only the second has, and every name of
    both scans is logged as a duplicate, with the path that the second scan
    registered it with. *)
Theorem all_scanned_twice (fs : FileSystem)
    (modules modules' : gmap string PyModule)
    (result : gmap string Expansion) (log : list LogMsg) :
  getExpansionsFor_body fs "all" modules = (Ok (result, log), modules') ->
  exists first_ log1 modules1 second_ log2,
    _getExpansionsFor fs "all" modules = (Ok (first_, log1), modules1)
    /\ _getExpansionsFor fs "all" modules1 = (Ok (second_, log2), modules')
    /\ (forall name,
           result !! name
           = match first_ !! name with
             | Some e => Some e
             | None => second_ !! name
             end)
    /\ forall name f path,
         is_Some (first_ !! name) ->
         second_ !! name = Some (f, path) ->
         LogIgnoreDuplicate name path ∈ log.
Proof.
  unfold getExpansionsFor_body. intros H.
  destruct (_getExpansionsFor fs "all" modules)
    as [[[first_ log1]|e] modules1] eqn:H1; [|discriminate].
  destruct (_getExpansionsFor fs "all" modules1)
    as [[[second_ log2]|e] modules2] eqn:H2; [|discriminate].
  pose proof (mergeExpansions_spec first_ second_) as [Hm Hlog].
  destruct (mergeExpansions first_ second_) as [merged log3]. simpl in *.
  injection H as <- <- <-. subst merged.
  exists first_, log1, modules1, second_, log2.
  split; [reflexivity|]. split; [exact H2|]. split.
  - intros name. apply lookup_union_first.
  - intros name f path Hf Hs.
    apply elem_of_cons. right.
    rewrite !elem_of_app. right. right. left.
    apply Hlog. exists f. split; [exact Hs|exact Hf].
Qed.

Lemma all_scanned_twice_witness :
  exists result log modules',
    getExpansionsFor_body three_directories "all" ∅
    = (Ok (result, log), modules')
    /\ LogIgnoreDuplicate "date" "/d1/all.expand" ∈ log.
Proof.
  destruct (getExpansionsFor_body three_directories "all" ∅)
    as [[[result log]|e] modules'] eqn:H.
  - exists result, log, modules'. split; [reflexivity|].
    destruct (all_scanned_twice three_directories ∅ modules' result log H)
      as (first_ & log1 & modules1 & second_ & log2 & H1 & H2 & _ & Hlog).
    apply (Hlog "date" date_second).
    + vm_compute in H1. injection H1 as <- _ _. vm_compute. eauto.
    + vm_compute in H1. injection H1 as _ _ <-.
      vm_compute in H2. injection H2 as <- _ _. vm_compute. reflexivity.
  - vm_compute in H. discriminate.
Defined.

(* ===================================================================== *)
(** * 22. Further properties of the argument parsing *)
(* ===================================================================== *)

Lemma classify_arguments_error (preArgs : list string) :
  forall (arguments : list string) (namedArgs : gmap string string),
    (forall e, classify_arguments preArgs arguments namedArgs = Err e ->
               e = ExcValueError)
    /\ (classify_arguments preArgs arguments namedArgs = Err ExcValueError
        <-> Exists (fun arg => (2 <= count_char "=" arg)%nat) preArgs).
Proof.
  induction preArgs as [|arg rest IH]; intros arguments namedArgs.
  - simpl. split; [discriminate|]. split; [discriminate|].
    intros H. inversion H.
  - rewrite classify_arguments_cons.
    pose proof (split_strip_length arg) as Hlen.
    pose proof (contains_count "=" arg) as Hcc.
    destruct (contains "=" arg) eqn:E.
    + assert (Hc : (1 <= count_char "=" arg)%nat) by (apply Hcc; reflexivity).
      destruct (map strip (split "=" arg)) as [|key [|value [|x l]]];
        simpl in Hlen.
      * lia.
      * lia.
      * destruct (IH arguments (<[key := value]> namedArgs)) as [IH1 IH2].
        split; [exact IH1|]. rewrite IH2. split.
        -- intros H. right. exact H.
        -- intros H. inversion H; subst; [lia|assumption].
      * split; [intros e He; congruence|].
        split; [|reflexivity]. intros _. left. lia.
    + assert (Hc : count_char "=" arg = 0%nat).
      { destruct (count_char "=" arg); [reflexivity|].
        assert (false = true) by (apply Hcc; lia). discriminate. }
      destruct (IH (arguments ++ [arg]) namedArgs) as [IH1 IH2].
      split; [exact IH1|]. rewrite IH2. split.
      * intros H. right. exact H.
      * intros H. inversion H; subst; [lia|assumption].
Qed.

(** X12: the parsing of the items fails exactly when some item has two or
    more [=]: the unpacking into key and value then raises ValueError,
    no other exception is raised, and with at most one [=] in every item
    the parsing returns. *)
Theorem value_error_on_second_equal_sign (preArgs : list string) :
  (forall e, classify_arguments preArgs [] ∅ = Err e -> e = ExcValueError)
  /\ (classify_arguments preArgs [] ∅ = Err ExcValueError
      <-> Exists (fun arg => (2 <= count_char "=" arg)%nat) preArgs).
Proof. apply classify_arguments_error. Qed.

Lemma classify_arguments_app (before after : list string) :
  forall (arguments : list string) (namedArgs : gmap string string),
    classify_arguments (before ++ after) arguments namedArgs
    = match classify_arguments before arguments namedArgs with
      | Ok (arguments', namedArgs') =>
          classify_arguments after arguments' namedArgs'
      | Err e => Err e
      end.
Proof.
  induction before as [|arg rest IH]; intros arguments namedArgs;
    [reflexivity|].
  change ((arg :: rest) ++ after) with (arg :: (rest ++ after)).
  rewrite !classify_arguments_cons.
  destruct (contains "=" arg); [|apply IH].
  destruct (map strip (split "=" arg)) as [|k [|v [|x l]]];
    try reflexivity. apply IH.
Qed.

Lemma classify_arguments_keeps (preArgs : list string) (key : string) :
  Forall (fun arg => forall v, map strip (split "=" arg) <> [key; v])
    preArgs ->
  forall (arguments0 arguments : list string)
         (namedArgs0 namedArgs : gmap string string),
    classify_arguments preArgs arguments0 namedArgs0
    = Ok (arguments, namedArgs) ->
    namedArgs !! key = namedArgs0 !! key.
Proof.
  induction 1 as [|arg rest Harg Hrest IH];
    intros arguments0 arguments namedArgs0 namedArgs H.
  - simpl in H. injection H as _ <-. reflexivity.
  - rewrite classify_arguments_cons in H.
    destruct (contains "=" arg); [|apply (IH _ _ _ _ H)].
    destruct (map strip (split "=" arg)) as [|k [|v [|x l]]] eqn:Es;
      try discriminate.
    rewrite (IH _ _ _ _ H). apply lookup_insert_ne.
    intros ->. apply (Harg v). reflexivity.
Qed.

(** X13: a keyword given more than once keeps its last value: the item
    [key=value] after which no item has the same key decides the entry of
    [key] in the dictionary that is passed to the function. *)
Theorem last_keyword_wins (before after : list string) (arg key value : string)
    (arguments : list string) (namedArgs : gmap string string) :
  contains "=" arg = true ->
  map strip (split "=" arg) = [key; value] ->
  Forall (fun arg' => forall v, map strip (split "=" arg') <> [key; v])
    after ->
  classify_arguments (before ++ arg :: after) [] ∅
  = Ok (arguments, namedArgs) ->
  namedArgs !! key = Some value.
Proof.
  intros Hc Hs Hafter H. rewrite classify_arguments_app in H.
  destruct (classify_arguments before [] ∅) as [[arguments1 namedArgs1]|e];
    [|discriminate].
  rewrite classify_arguments_cons, Hc, Hs in H.
  rewrite (classify_arguments_keeps _ _ Hafter _ _ _ _ H).
  apply lookup_insert_eq.
Qed.

Lemma last_keyword_wins_witness :
  classify_arguments (["a=1"; "x"] ++ "a = 2" :: ["b=3"]) [] ∅
  = Ok (["x"], <["b" := "3"]> (<["a" := "2"]> (<["a" := "1"]> ∅)))
  /\ (<["b" := "3"]> (<["a" := "2"]> (<["a" := "1"]> ∅)) : gmap string string)
     !! "a" = Some "2".
Proof.
  assert (H : classify_arguments (["a=1"; "x"] ++ "a = 2" :: ["b=3"]) [] ∅
              = Ok (["x"],
                    <["b" := "3"]> (<["a" := "2"]> (<["a" := "1"]> ∅))))
    by (vm_compute; reflexivity).
  split; [exact H|].
  apply (last_keyword_wins ["a=1"; "x"] ["b=3"] "a = 2" "a" "2" ["x"] _
           eq_refl eq_refl); [|exact H].
  constructor; [|constructor]. intros v Hv. vm_compute in Hv. discriminate.
Defined.

(** X14: the argument list is empty exactly when every piece between the
    commas is blank: parentheses with nothing, white space or stray commas
    between them call the function with no argument. *)
Theorem no_arguments_iff_blank (t : string) :
  preArgs_of t = []
  <-> Forall (fun piece => strip piece = EmptyString)
        (split "," (slice_1_m1 t)).
Proof.
  unfold preArgs_of.
  induction (split "," (slice_1_m1 t)) as [|piece pieces IH]; simpl.
  - split; [constructor|reflexivity].
  - destruct (strip piece) eqn:E; simpl.
    + rewrite IH. split.
      * intros H. constructor; [exact E|exact H].
      * intros H. inversion H; assumption.
    + split; [discriminate|].
      intros H. inversion H; subst. congruence.
Qed.

Lemma value_error_on_second_equal_sign_witness :
  classify_arguments ["x"; "a=b=c"] [] ∅ = Err ExcValueError.
Proof.
  apply (proj2 (proj2 (value_error_on_second_equal_sign ["x"; "a=b=c"]))).
  right. left. vm_compute. lia.
Defined.

Lemma no_arguments_iff_blank_witness : preArgs_of "( , )" = [].
Proof.
  apply (proj2 (no_arguments_iff_blank "( , )")).
  vm_compute. repeat constructor.
Defined.

(* ===================================================================== *)
(** * 23. Further properties of the pipeline *)
(* ===================================================================== *)

Lemma popups_app (l1 l2 : list Event) :
  popups (l1 ++ l2) = (popups l1 + popups l2)%nat.
Proof. unfold popups. rewrite List.filter_app, length_app. reflexivity. Qed.

Lemma render_with_template_popups (h : Host) (w w1 : World) (name : string)
    (replacement : PyValue) (r : Outcome + PyValue) :
  render_with_template h w name replacement = (w1, r) ->
  exists new,
    events w1 = events w ++ new
    /\ popups new = match r with inl Aborted => 1%nat | _ => 0%nat end.
Proof.
  unfold render_with_template. intros H.
  destruct replacement as [s|data|repr];
    try (injection H as <- <-; exists []; rewrite app_nil_r; auto).
  destruct (findApplicationResource h _) as [[|c filename]|];
    try (injection H as <- <-; eexists [_; _]; simpl;
         rewrite <- app_assoc; auto).
  destruct (find _JINJA_TEMPLATES_BASE_DIR (String c filename));
    [|injection H as <- <-; eexists [_]; auto].
  destruct (render h _ _ data); injection H as <- <-.
  - eexists [_]. auto.
  - eexists [_; _]. simpl. rewrite <- app_assoc. auto.
Qed.

Lemma edit_block_popups (h : Host) (func : Function) (word_range : Range)
    (argument_range : option Range) (replacement : PyValue) (w w' : World)
    (o : Outcome) :
  makeAtomicUndo w
    (edit_block h func word_range argument_range replacement) = (w', o) ->
  o <> Aborted
  /\ exists new, events w' = events w ++ new /\ popups new = 0%nat.
Proof.
  intros H. apply edit_scope in H.
  destruct H as (Ho & edits & He & Hedits). split.
  - destruct Ho as [->| ->]; discriminate.
  - exists ([EvStartEditing] ++ edits ++ [EvEndEditing]).
    split; [exact He|]. rewrite !popups_app.
    assert (Hz : popups edits = 0%nat).
    { unfold popups. clear He.
      induction Hedits as [|e l He Hl IH]; [reflexivity|].
      simpl. destruct e; try discriminate; exact IH. }
    rewrite Hz. reflexivity.
Qed.

(** X15: every call reports at most once: a call that aborts shows exactly
    one popup, and a call that edits the buffer or is left by an exception
    shows none. *)
Theorem one_report_per_abort (h : Host) (w w' : World) (o : Outcome) :
  expandAtCursor h w = (w', o) ->
  exists new,
    events w' = events w ++ new
    /\ popups new = match o with Aborted => 1%nat | _ => 0%nat end.
Proof.
  unfold expandAtCursor. intros H.
  assert (Hpop : forall title msg icon,
             exists new,
               events (popup w title msg icon) = events w ++ new
               /\ popups new = 1%nat).
  { intros title msg icon. eexists [_]. split; reflexivity. }
  assert (Hnone : exists new, events w = events w ++ new
                              /\ popups new = 0%nat).
  { exists []. rewrite app_nil_r. auto. }
  destruct (wordAndArgumentAtCursorRanges (buffer w) (cursorPosition h))
    as [[word_range argument_range]|e].
  2: { destruct e; injection H as <- <-; auto. }
  destruct (fst (getExpansionsFor (fs h) (mimeType h) (interpreter h)))
    as [expansions|e].
  2: { injection H as <- <-. auto. }
  destruct (expansions !! text (buffer w) word_range) as [[func path]|].
  2: { injection H as <- <-. auto. }
  destruct (parse_arguments (buffer w) argument_range)
    as [[arguments namedArgs]|e].
  2: { injection H as <- <-. auto. }
  destruct (call func arguments namedArgs) as [replacement|s|s].
  2: { injection H as <- <-. auto. }
  2: { injection H as <- <-. auto. }
  destruct (template func) as [name|].
  - destruct (render_with_template h w name replacement) as [w1 r] eqn:Hr.
    apply render_with_template_popups in Hr.
    destruct Hr as (new1 & He1 & Hp1).
    destruct r as [o1|rendered].
    + injection H as <- <-. exists new1. auto.
    + apply edit_block_popups in H.
      destruct H as (Ho & new2 & He2 & Hp2).
      exists (new1 ++ new2). split.
      * rewrite He2, He1, <- app_assoc. reflexivity.
      * rewrite popups_app, Hp1, Hp2. destruct o; [contradiction| |];
          reflexivity.
  - apply edit_block_popups in H. destruct H as (Ho & new2 & He2 & Hp2).
    exists new2. split; [exact He2|].
    rewrite Hp2. destruct o; [contradiction| |]; reflexivity.
Qed.

Lemma one_report_per_abort_witness :
  exists new,
    events (mkWorld ["greet"]
              [EvFindResource "expand/templates/hi.tmpl";
               EvPopup "Error" (MsgTemplateNotFound "hi.tmpl")
                 "dialog-error"])
    = events (mkWorld ["greet"] []) ++ new
    /\ popups new = 1%nat.
Proof.
  exact (one_report_per_abort plain_host (mkWorld ["greet"] []) _ Aborted
           (proj1 expand_examples)).
Defined.

(** X16: a call that ends in the edit removes the argument range first,
    when there is one, then the word range, and then inserts the text at the
    start of the word range, through the template interface when the
    function asks for it and the view has one, and as plain text otherwise;
    before the undo scope nothing happens but the lookup of the template
    file of a function with a template. *)
Theorem applied_edit_shape (h : Host) (w w' : World) (word_range : Range)
    (argument_range : option Range) (func : Function)
    (replacement : PyValue) :
  invoked h w word_range argument_range func (Returns replacement) ->
  expandAtCursor h w = (w', Applied) ->
  exists t,
    events w'
    = events w
      ++ match template func with
         | Some name =>
             [EvFindResource (_JINJA_TEMPLATES_BASE_DIR +:+ "/" +:+ name)]
         | None => []
         end
      ++ [EvStartEditing]
      ++ match argument_range with
         | Some r => [EvRemoveText r]
         | None => []
         end
      ++ [EvRemoveText word_range;
          if match use_template_iface func with
             | Some b => b
             | None => false
             end && templateInterface2 h
          then EvInsertTemplateText (range_start word_range) t
          else EvInsertText (range_start word_range) t;
          EvEndEditing]
    /\ (template func = None -> replacement = VStr t).
Proof.
  intros Hi H. rewrite (expandAtCursor_invoked _ _ _ _ _ _ Hi) in H.
  assert (Hedit :
            forall w1 rendered,
              makeAtomicUndo w1
                (edit_block h func word_range argument_range rendered)
              = (w', Applied) ->
              exists t,
                rendered = VStr t
                /\ events w'
                   = events w1
                     ++ [EvStartEditing]
                     ++ match argument_range with
                        | Some r => [EvRemoveText r]
                        | None => []
                        end
                     ++ [EvRemoveText word_range;
                         if match use_template_iface func with
                            | Some b => b
                            | None => false
                            end && templateInterface2 h
                         then EvInsertTemplateText (range_start word_range) t
                         else EvInsertText (range_start word_range) t;
                         EvEndEditing]).
  { intros w1 rendered Hm. unfold makeAtomicUndo, edit_block in Hm.
    destruct rendered as [t|d|x];
      [|destruct argument_range; simpl in Hm; discriminate
       |destruct argument_range; simpl in Hm; discriminate].
    exists t. split; [reflexivity|].
    destruct argument_range as [r|];
      destruct (match use_template_iface func with
                | Some b => b
                | None => false
                end && templateInterface2 h);
      simpl in Hm; injection Hm as <-; unfold emit, remove; simpl;
      rewrite <- ?app_assoc; reflexivity. }
  destruct (template func) as [name|].
  - unfold render_with_template in H.
    destruct replacement as [s|data|repr]; try discriminate.
    destruct (findApplicationResource h _) as [[|c filename]|];
      try discriminate.
    destruct (find _JINJA_TEMPLATES_BASE_DIR (String c filename));
      [|discriminate].
    destruct (render h _ _ data) as [t0|message]; [|discriminate].
    destruct (Hedit _ _ H) as (t & Ht & He). exists t.
    split; [|discriminate]. rewrite He. simpl.
    rewrite <- app_assoc. reflexivity.
  - destruct (Hedit _ _ H) as (t & Ht & He). exists t.
    split; [exact He|]. intros _. exact Ht.
Qed.

Lemma applied_edit_shape_witness :
  exists t,
    events (mkWorld ["2013-05-01 is"]
              [EvStartEditing;
               EvRemoveText (mkRange (mkCursor 0 5) (mkCursor 0 7));
               EvRemoveText (mkRange (mkCursor 0 0) (mkCursor 0 5));
               EvInsertText (mkCursor 0 0) "2013-05-01";
               EvEndEditing])
    = [] ++ [] ++ [EvStartEditing]
      ++ [EvRemoveText (mkRange (mkCursor 0 5) (mkCursor 0 7))]
      ++ [EvRemoveText (mkRange (mkCursor 0 0) (mkCursor 0 5));
          EvInsertText (mkCursor 0 0) t; EvEndEditing]
    /\ (@None string = None -> VStr "2013-05-01" = VStr t).
Proof.
  assert (Hi : invoked plain_host (mkWorld ["today() is"] [])
                 (mkRange (mkCursor 0 0) (mkCursor 0 5))
                 (Some (mkRange (mkCursor 0 5) (mkCursor 0 7))) today
                 (Returns (VStr "2013-05-01"))).
  { split; [vm_compute; reflexivity|].
    eexists _, _, _, _.
    split; [vm_compute; reflexivity|].
    split; [vm_compute; reflexivity|].
    split; [vm_compute; reflexivity|].
    vm_compute; reflexivity. }
  exact (applied_edit_shape plain_host (mkWorld ["today() is"] []) _ _ _
           today _ Hi (proj2 expand_examples)).
Defined.

(* ===================================================================== *)
(** * 24. Properties of the help at the cursor *)
(* ===================================================================== *)

(** X17: help and expansion locate and resolve alike, and help is the
    quieter of the two: help shows at most one popup or tooltip; a popup of
    help is the parse error popup that the expansion shows for the same
    buffer and cursor; an exception that leaves help, other than the
    AttributeError of a missing docstring, leaves the expansion too; and
    where the expansion reports an unknown word, help shows nothing. *)
Theorem help_quieter_than_expand (h : Host)
    (__doc__ : Function -> option string) (w : World)
    (shown : list HelpEvent) (exc : option Exception) :
  getHelpOnExpandAtCursor h __doc__ (buffer w) = (shown, exc) ->
  (List.length shown <= 1)%nat
  /\ (forall title msg icon,
         In (HelpPopup title msg icon) shown ->
         expandAtCursor h w = (popup w title msg icon, Aborted))
  /\ (forall e,
         exc = Some e ->
         e = ExcOther "AttributeError"
         \/ expandAtCursor h w = (w, Uncaught e))
  /\ (forall word,
         expandAtCursor h w
         = (popup w "Error" (MsgExpansionNotFound word) "dialog-warning",
            Aborted) ->
         shown = [] /\ exc = None).
Proof.
  unfold getHelpOnExpandAtCursor, expandAtCursor. intros H.
  destruct (wordAndArgumentAtCursorRanges (buffer w) (cursorPosition h))
    as [[word_range argument_range]|e0].
  2: { destruct e0; injection H as <- <-;
         (split; [simpl; lia|]);
         (split; [intros title msg icon Hin; simpl in Hin;
                  try contradiction;
                  destruct Hin as [Hin|[]]; injection Hin as <- <- <-;
                  reflexivity|]);
         (split; [intros e' He'; try discriminate;
                  injection He' as <-; right; reflexivity|]);
         intros word Hw; try discriminate; events_differ Hw. }
  destruct (fst (getExpansionsFor (fs h) (mimeType h) (interpreter h)))
    as [expansions|e0].
  2: { injection H as <- <-. split; [simpl; lia|].
       split; [intros title msg icon []|].
       split; [intros e' He'; injection He' as <-; right; reflexivity|].
       intros word Hw. discriminate. }
  destruct (expansions !! text (buffer w) word_range) as [[func path]|].
  2: { injection H as <- <-. split; [simpl; lia|].
       split; [intros title msg icon []|].
       split; [intros e' He'; discriminate|]. auto. }
  assert (Hfound :
            forall word,
              match parse_arguments (buffer w) argument_range with
              | Ok (arguments, namedArgs) =>
                  match call func arguments namedArgs with
                  | Returns replacement =>
                      let '(w0, r) :=
                        match template func with
                        | Some name =>
                            render_with_template h w name replacement
                        | None => (w, inr replacement)
                        end in
                      match r with
                      | inl o => (w0, o)
                      | inr replacement0 =>
                          makeAtomicUndo w0
                            (edit_block h func word_range argument_range
                               replacement0)
                      end
                  | RaisesException s =>
                      (popup w "Error" (MsgTraceback s) "dialog-error",
                       Aborted)
                  | RaisesBaseException s => (w, Uncaught (ExcOther s))
                  end
              | Err e => (w, Uncaught e)
              end
              <> (popup w "Error" (MsgExpansionNotFound word)
                    "dialog-warning", Aborted)).
  { intros word Hw.
    destruct (parse_arguments (buffer w) argument_range)
      as [[arguments namedArgs]|e1]; [|discriminate].
    destruct (call func arguments namedArgs) as [replacement|s|s];
      [| |discriminate].
    - destruct (template func) as [name|].
      + destruct (render_with_template h w name replacement) as [w1 r]
          eqn:Hr.
        destruct r as [o1|rendered].
        * injection Hw as -> ->. unfold render_with_template in Hr.
          destruct replacement as [s|data|repr]; try discriminate.
          destruct (findApplicationResource h _) as [[|c filename]|].
          1, 3: events_differ Hr.
          destruct (find _JINJA_TEMPLATES_BASE_DIR (String c filename));
            [|discriminate].
          destruct (render h _ _ data); [discriminate|].
          events_differ Hr.
        * apply edit_scope in Hw. destruct Hw as ([Ho|Ho] & _); discriminate.
      + apply edit_scope in Hw. destruct Hw as ([Ho|Ho] & _); discriminate.
    - events_differ Hw. }
  destruct (__doc__ func) as [doc|]; injection H as <- <-.
  - split; [simpl; lia|].
    split; [intros title msg icon [Hin|[]]; discriminate|].
    split; [intros e' He'; discriminate|].
    intros word Hw. exfalso. apply (Hfound word). exact Hw.
  - split; [simpl; lia|].
    split; [intros title msg icon []|].
    split; [intros e' He'; injection He' as <-; left; reflexivity|].
    intros word Hw. exfalso. apply (Hfound word). exact Hw.
Qed.

Lemma help_quieter_than_expand_witness :
  getHelpOnExpandAtCursor plain_host (fun _ => None) ["nosuch"] = ([], None)
  /\ (List.length (@nil HelpEvent) <= 1)%nat.
Proof.
  assert (H : getHelpOnExpandAtCursor plain_host (fun _ => None)
                (buffer (mkWorld ["nosuch"] [])) = ([], None))
    by (vm_compute; reflexivity).
  split; [exact H|].
  exact (proj1 (help_quieter_than_expand plain_host (fun _ => None)
                  (mkWorld ["nosuch"] []) [] None H)).
Defined.

(* ===================================================================== *)
(** * 25. Properties of the listeners and the action handler *)
(* ===================================================================== *)

Lemma callAll_quiet {S : Type} (l : list (Listener S)) :
  forall (st : S) (stderr : list string),
    quiet l st = true ->
    exists printed,
      _callAll l st stderr
      = (fold_left (fun s f => after (f s)) l st, stderr ++ printed, false)
      /\ List.length printed = (2 * raising l st)%nat.
Proof.
  induction l as [|f rest IH]; intros st stderr Hq.
  - exists []. rewrite app_nil_r. auto.
  - simpl in Hq. apply andb_prop in Hq. destruct Hq as [Hr Hq].
    apply negb_true_iff in Hr. simpl. rewrite Hr.
    destruct (raised (f st)) as [traceback|].
    + destruct (IH (after (f st))
                  (stderr ++ [traceback; String newline EmptyString]) Hq)
        as (printed & H1 & H2).
      exists ([traceback; String newline EmptyString] ++ printed).
      split; [rewrite H1, <- app_assoc; reflexivity|].
      rewrite length_app, H2. simpl. lia.
    + destruct (IH (after (f st)) stderr Hq) as (printed & H1 & H2).
      exists printed. split; [exact H1|]. rewrite H2. simpl. lia.
Qed.

Lemma callAll_app {S : Type} (l l' : list (Listener S)) :
  forall (st : S) (stderr : list string),
    quiet l st = true ->
    _callAll (l ++ l') st stderr
    = _callAll l' (_callAll l st stderr).1.1 (_callAll l st stderr).1.2.
Proof.
  induction l as [|f rest IH]; intros st stderr Hq; [reflexivity|].
  simpl in Hq. apply andb_prop in Hq. destruct Hq as [Hr Hq].
  apply negb_true_iff in Hr. simpl. rewrite Hr. apply IH. exact Hq.
Qed.

(** X18: a listener that raises stops nothing, and one that resizes the set
    stops the loop.  While no listener resizes the set of the event, every
    listener runs, on the state the listeners before it left, whether they
    raised or not, and the loop writes two entries to the standard error
    stream per listener that raised and ends without an exception.  After
    the first listener that resizes the set the loop is left by a
    RuntimeError: the listeners after it are not called. *)
Theorem callAll_runs_every_listener {S : Type} (l l' : list (Listener S))
    (f : Listener S) (st : S) (stderr : list string) :
  quiet l st = true ->
  (exists printed,
      _callAll l st stderr
      = (fold_left (fun s f => after (f s)) l st, stderr ++ printed, false)
      /\ List.length printed = (2 * raising l st)%nat)
  /\ _callAll (l ++ l') st stderr
     = _callAll l' (_callAll l st stderr).1.1 (_callAll l st stderr).1.2
  /\ (resized (f (fold_left (fun s f => after (f s)) l st)) = true ->
      exists printed,
        _callAll (l ++ f :: l') st stderr
        = (after (f (fold_left (fun s f => after (f s)) l st)),
           stderr ++ printed, true)
        /\ List.length printed = (2 * raising (l ++ [f]) st)%nat).
Proof.
  intros Hq. destruct (callAll_quiet l st stderr Hq) as (printed & H1 & H2).
  split; [eauto|]. split; [apply callAll_app; exact Hq|].
  intros Hr. rewrite (callAll_app _ _ _ _ Hq), H1. simpl. rewrite Hr.
  assert (Hn : forall (k : list (Listener S)) (s : S),
             raising (k ++ [f]) s
             = (raising k s
                + match raised (f (fold_left (fun s f => after (f s)) k s))
                  with Some _ => 1 | None => 0 end)%nat).
  { induction k as [|g k IHk]; intros s; simpl; [lia|].
    rewrite IHk. lia. }
  rewrite Hn.
  destruct (raised (f (fold_left (fun s f => after (f s)) l st)))
    as [traceback|].
  - exists (printed ++ [traceback; String newline EmptyString]).
    split; [rewrite <- app_assoc; reflexivity|].
    rewrite length_app, H2. simpl. lia.
  - exists printed. split; [reflexivity|]. rewrite H2. lia.
Qed.

Lemma callAll_runs_every_listener_witness :
  _callAll [counting; failing; registering; counting] O []
  = (3%nat, ["boom"; String newline EmptyString], true).
Proof.
  destruct (proj2 (proj2 (callAll_runs_every_listener [counting; failing]
                            [counting] registering O [] eq_refl)) eq_refl)
    as (printed & H1 & H2).
  simpl in H1. rewrite H1. vm_compute in H1.
  injection H1 as <-. reflexivity.
Defined.

(** X19: the action handler reports an exception once, when the wrapped
    function has a name.  No plain exception leaves it then; it shows at
    most one box more than the wrapped function did, and one exactly when
    the wrapped function raised a plain exception; and a handler around it
    adds nothing, as the inner one raises the exception as handled.  When
    the wrapped callable has no [__name__], a plain exception of it is not
    reported: the handler shows no box and is left by an AttributeError. *)
Theorem handler_reports_once {V : Type} (name : string)
    (boxes : list MessageBox) (r : ActionEnd V) :
  (forall txt,
      (catchAllHandler (Some name) (boxes, r)).2 <> RaisedException txt)
  /\ (exists shown,
         (catchAllHandler (Some name) (boxes, r)).1 = boxes ++ shown
         /\ (List.length shown <= 1)%nat
         /\ (shown = [] <-> forall txt, r <> RaisedException txt))
  /\ catchAllHandler None (catchAllHandler (Some name) (boxes, r))
     = catchAllHandler (Some name) (boxes, r)
  /\ (catchAllHandler None (boxes, r)).1 = boxes
  /\ (forall txt,
         r = RaisedException txt ->
         catchAllHandler None (boxes, r)
         = (boxes, RaisedException (attribute_error txt))).
Proof.
  split; [|split; [|split; [|split]]].
  - intros txt. destruct r; simpl; discriminate.
  - destruct r as [v|txt|txt|txt]; simpl;
      try (exists []; rewrite app_nil_r;
           split; [reflexivity|]; split; [simpl; lia|];
           split; [intros _ txt'; discriminate|reflexivity]).
    exists [(txt, name)]. split; [reflexivity|]. split; [simpl; lia|].
    split; [discriminate|]. intros H. exfalso. apply (H txt). reflexivity.
  - destruct r; reflexivity.
  - destruct r; reflexivity.
  - intros txt ->. reflexivity.
Qed.

Lemma handler_reports_once_witness :
  catchAllHandler None ([], @RaisedException unit "boom")
  = ([], RaisedException (attribute_error "boom")).
Proof.
  exact (proj2 (proj2 (proj2 (proj2 (handler_reports_once "run" []
                                       (@RaisedException unit "boom")))))
           "boom" eq_refl).
Defined.

Lemma merge_log_counts_duplicates_witness :
  (mergeExpansions {["a" := (date_first, "p")]}
     {["b" := (date_second, "q")]}).2 = [].
Proof.
  apply (proj2 (proj2 (merge_log_counts_duplicates
                         {["a" := (date_first, "p")]}
                         {["b" := (date_second, "q")]}))).
  rewrite !dom_singleton_L. set_solver.
Defined.
